(** * Transcriber: artifact resolution and transcript segmentation

    A shallow embedding of the algorithmic core of [app.py]
    ([TranscriberApp.download_audio], [TranscriberApp.save_transcript] and
    [TranscriberApp._format_timestamp]) together with the properties its
    specification states about it.

    Modelling conventions.
    - A Python [str] is a list of Unicode code points ([char := N]), so that
      slicing ([s[:50]]) and the per-character tests count code points.
    - A Python [float] holding a time in seconds is represented by the
      rational number it denotes.  [//] and [%] are the exact operations
      on it, which is what the float operations return on every duration
      a recording can have; the difference of two times is taken without
      the rounding of the float subtraction.
    - [datetime.now()] is an input of the functions that read the clock.
    - The download directory is a listing of named entries with their
      creation times, in the order the operating system enumerates them. *)

From Stdlib Require Import String Ascii.
From Stdlib Require Import List Bool Arith ZArith NArith QArith Qround.
From Stdlib Require Import Lia Lqa DecimalN DecimalFacts Permutation.
Import ListNotations.

Set Implicit Arguments.
Close Scope Q_scope.

(* ================================================================== *)
(** * Strings *)

Definition char := N.
Definition str := list char.

(** An ASCII literal as a Python string. *)
Fixpoint lit (s : string) : str :=
  match s with
  | EmptyString => []
  | String a s' => N_of_ascii a :: lit s'
  end.

Definition LF : char := 10%N.
Definition SPACE : char := 32%N.
Definition HYPHEN : char := 45%N.
Definition UNDERSCORE : char := 95%N.
Definition DOT : char := 46%N.
Definition COLON : char := 58%N.
Definition ZERO : char := 48%N.
Definition EQUALS : char := 61%N.

Definition char_eqb (a b : char) : bool := N.eqb a b.

Fixpoint str_eqb (a b : str) : bool :=
  match a, b with
  | [], [] => true
  | x :: a', y :: b' => char_eqb x y && str_eqb a' b'
  | _, _ => false
  end.

Definition in_range (lo hi c : N) : bool := (lo <=? c)%N && (c <=? hi)%N.

(** [str.isspace] on one code point, as [str.strip] and [str.rstrip] use it
    when called without argument. *)
Definition isspace (c : char) : bool :=
  in_range 9 13 c || in_range 28 32 c
  || N.eqb c 133 || N.eqb c 160 || N.eqb c 5760
  || in_range 8192 8202 c || N.eqb c 8232 || N.eqb c 8233
  || N.eqb c 8239 || N.eqb c 8287 || N.eqb c 12288.

Fixpoint lstrip (s : str) : str :=
  match s with
  | [] => []
  | c :: s' => if isspace c then lstrip s' else s
  end.

Fixpoint rstrip (s : str) : str :=
  match s with
  | [] => []
  | c :: s' =>
      match rstrip s' with
      | [] => if isspace c then [] else [c]
      | r => c :: r
      end
  end.

Definition strip (s : str) : str := rstrip (lstrip s).

(** [sep.join(parts)] *)
Fixpoint join (sep : str) (parts : list str) : str :=
  match parts with
  | [] => []
  | [p] => p
  | p :: rest => p ++ sep ++ join sep rest
  end.

(* ------------------------------------------------------------------ *)
(** ** Decimal formatting of integers *)

Fixpoint str_of_uint (d : Decimal.uint) : str :=
  match d with
  | Decimal.Nil => []
  | Decimal.D0 d => 48%N :: str_of_uint d
  | Decimal.D1 d => 49%N :: str_of_uint d
  | Decimal.D2 d => 50%N :: str_of_uint d
  | Decimal.D3 d => 51%N :: str_of_uint d
  | Decimal.D4 d => 52%N :: str_of_uint d
  | Decimal.D5 d => 53%N :: str_of_uint d
  | Decimal.D6 d => 54%N :: str_of_uint d
  | Decimal.D7 d => 55%N :: str_of_uint d
  | Decimal.D8 d => 56%N :: str_of_uint d
  | Decimal.D9 d => 57%N :: str_of_uint d
  end.

(** [str(n)] for a natural number: decimal digits, no leading zero. *)
Definition str_of_N (n : N) : str := str_of_uint (N.to_uint n).

(** Left padding with ['0'] up to [width] characters. *)
Definition zfill (width : nat) (s : str) : str :=
  repeat ZERO (width - length s) ++ s.

(** [format(z, "0<width>d")]: the sign, when there is one, counts in the
    width. *)
Definition format_0d (width : nat) (z : Z) : str :=
  if (z <? 0)%Z
  then HYPHEN :: zfill (width - 1) (str_of_N (Z.to_N (- z)))
  else zfill width (str_of_N (Z.to_N z)).

(* ================================================================== *)
(** * TimestampCodec: [_format_timestamp] *)

(** [x // y] and [x % y] on floats, [int(x)] (truncation toward zero). *)
Definition py_floordiv (x y : Q) : Q := inject_Z (Qfloor (x / y)%Q).
Definition py_mod (x y : Q) : Q :=
  (x - y * inject_Z (Qfloor (x / y)))%Q.
Definition py_int (x : Q) : Z :=
  if Qlt_le_dec x 0%Q then Qceiling x else Qfloor x.

Definition _format_timestamp (seconds : Q) : str :=
  let hours := py_int (py_floordiv seconds 3600) in
  let minutes := py_int (py_floordiv (py_mod seconds 3600) 60) in
  let secs := py_int (py_mod seconds 60) in
  format_0d 2 hours ++ [COLON] ++ format_0d 2 minutes ++ [COLON]
  ++ format_0d 2 secs.

(* ================================================================== *)
(** * FilenameSanitizer: the first lines of [save_transcript] *)

(** The fields of a [datetime] that [strftime] prints. *)
Record datetime := {
  year : N; month : N; day : N; hour : N; minute : N; second : N
}.

Definition fmtN (width : nat) (n : N) : str := format_0d width (Z.of_N n).

(** [strftime("%Y%m%d_%H%M%S")] *)
Definition strftime_compact (t : datetime) : str :=
  fmtN 4 (year t) ++ fmtN 2 (month t) ++ fmtN 2 (day t) ++ [UNDERSCORE]
  ++ fmtN 2 (hour t) ++ fmtN 2 (minute t) ++ fmtN 2 (second t).

(** [strftime('%Y-%m-%d %H:%M:%S')] *)
Definition strftime_date (t : datetime) : str :=
  fmtN 4 (year t) ++ [HYPHEN] ++ fmtN 2 (month t) ++ [HYPHEN]
  ++ fmtN 2 (day t) ++ [SPACE] ++ fmtN 2 (hour t) ++ [COLON]
  ++ fmtN 2 (minute t) ++ [COLON] ++ fmtN 2 (second t).

(** What [datetime.now()] can return. *)
Definition valid_datetime (t : datetime) : Prop :=
  (1000 <= year t <= 9999)%N /\ (1 <= month t <= 12)%N
  /\ (1 <= day t <= 31)%N /\ (hour t < 24)%N /\ (minute t < 60)%N
  /\ (second t < 60)%N.

Definition ascii_isalnum (c : char) : bool :=
  in_range 48 57 c || in_range 65 90 c || in_range 97 122 c.

Definition char_in (c : char) (l : list char) : bool := existsb (char_eqb c) l.

Section Sanitizer.

(** [str.isalnum] outside ASCII is a lookup in the Unicode character
    database, which is not part of the program. *)
Variable unicode_isalnum : char -> bool.

Definition isalnum (c : char) : bool :=
  if (c <? 128)%N then ascii_isalnum c else unicode_isalnum c.

(** The test of the generator expression:
    [c.isalnum() or c in (' ', '-', '_')]. *)
Definition keeps (c : char) : bool :=
  isalnum c || char_in c [SPACE; HYPHEN; UNDERSCORE].

Definition safe_title (video_title : str) : str :=
  let safe_title := rstrip (filter keeps video_title) in
  firstn 50 safe_title.

(** The part of the three file names before the role suffix. *)
Definition stem_of (video_title : str) (now : datetime) : str :=
  safe_title video_title ++ [UNDERSCORE] ++ strftime_compact now.

End Sanitizer.

(* ================================================================== *)
(** * SegmentFormatter: the three bodies written by [save_transcript] *)

Record Segment := { seg_start : Q; seg_end : Q; seg_text : str }.

Record TranscriptionResult := {
  language : str;
  text : str;
  segments : list Segment
}.

Definition separator : str := repeat EQUALS 80 ++ [LF; LF].

(** A text file as the sequence of [f.write] calls appends to it. *)
Definition write (f : str) (s : str) : str := f ++ s.

Definition full_text_body (video_title source_url : str) (now : datetime)
    (result : TranscriptionResult) : str :=
  let f := [] in
  let f := write f (lit "Transcription of: " ++ video_title ++ [LF]) in
  let f := write f (lit "Source: " ++ source_url ++ [LF]) in
  let f := write f (lit "Date: " ++ strftime_date now ++ [LF]) in
  let f := write f (lit "Language: " ++ language result ++ [LF]) in
  let f := write f separator in
  write f (strip (text result)).

Definition timestamped_header (video_title source_url : str) : str :=
  let f := [] in
  let f := write f (lit "Transcription with timestamps of: "
                    ++ video_title ++ [LF]) in
  let f := write f (lit "Source: " ++ source_url ++ [LF]) in
  write f separator.

(** One iteration of the loop over [result['segments']]. *)
Definition timestamped_step (f : str) (segment : Segment) : str :=
  let start_time := _format_timestamp (seg_start segment) in
  let end_time := _format_timestamp (seg_end segment) in
  let text := strip (seg_text segment) in
  write f (lit "[" ++ start_time ++ lit " --> " ++ end_time ++ lit "]"
           ++ [LF] ++ text ++ [LF; LF]).

Definition timestamped_body (video_title source_url : str)
    (result : TranscriptionResult) : str :=
  fold_left timestamped_step (segments result)
    (timestamped_header video_title source_url).

Definition lyrics_header (video_title source_url : str) : str :=
  let f := [] in
  let f := write f (lit "Transcription of: " ++ video_title ++ [LF]) in
  let f := write f (lit "Source: " ++ source_url ++ [LF]) in
  write f separator.

Fixpoint enumerate_from (A : Type) (i : nat) (l : list A) : list (nat * A) :=
  match l with
  | [] => []
  | x :: l' => (i, x) :: enumerate_from (S i) l'
  end.

Definition enumerate (A : Type) (l : list A) : list (nat * A) :=
  enumerate_from 0 l.

Definition Qgt_bool (a b : Q) : bool := negb (Qle_bool a b).

(** One iteration of [for i, segment in enumerate(result['segments'])];
    the state is the pending [current_paragraph] and the file [f]. *)
Definition lyrics_step (segs : list Segment) (st : list str * str)
    (it : nat * Segment) : list str * str :=
  let '(current_paragraph, f) := st in
  let '(i, segment) := it in
  let text := strip (seg_text segment) in
  let current_paragraph := current_paragraph ++ [text] in
  let is_long_pause :=
    if i + 1 <? length segs then
      match nth_error segs (i + 1) with
      | Some next_segment =>
          let pause_duration :=
            (seg_start next_segment - seg_end segment)%Q in
          Qgt_bool pause_duration 1.5
      | None => false
      end
    else false in
  let is_paragraph_full := 6 <=? length current_paragraph in
  let is_last_segment := i =? length segs - 1 in
  if is_long_pause || is_paragraph_full || is_last_segment
  then
    let paragraph_text := join [LF] current_paragraph in
    let f := write f (paragraph_text ++ [LF; LF]) in
    ([], f)
  else (current_paragraph, f).

Definition lyrics_body (video_title source_url : str)
    (result : TranscriptionResult) : str :=
  let f := lyrics_header video_title source_url in
  snd (fold_left (lyrics_step (segments result))
         (enumerate (segments result)) ([], f)).

(** [save_transcript]: the names and contents of the three files, in the
    order [txt_file, srt_file, lyrics_file].  [now] is the clock reading
    taken for the names, [now'] the later one taken for the [Date:] line. *)
Record saved_file := { file_name : str; file_content : str }.

Definition save_transcript (unicode_isalnum : char -> bool)
    (now now' : datetime) (video_title : str)
    (result : TranscriptionResult) (source_url : str)
    : saved_file * saved_file * saved_file :=
  let timestamp := strftime_compact now in
  let safe_title := safe_title unicode_isalnum video_title in
  let txt_file := safe_title ++ [UNDERSCORE] ++ timestamp ++ lit ".txt" in
  let srt_file :=
    safe_title ++ [UNDERSCORE] ++ timestamp ++ lit "_timestamps.txt" in
  let lyrics_file :=
    safe_title ++ [UNDERSCORE] ++ timestamp ++ lit "_lyrics.txt" in
  ({| file_name := txt_file;
      file_content := full_text_body video_title source_url now' result |},
   {| file_name := srt_file;
      file_content := timestamped_body video_title source_url result |},
   {| file_name := lyrics_file;
      file_content := lyrics_body video_title source_url result |}).

(* ================================================================== *)
(** * ArtifactResolver: the file-location step of [download_audio] *)

(** ** [pathlib] on the final component of a path

    Every path the step handles lies in the download directory (the output
    template and the glob pattern are both built on [self.downloads_dir]);
    a path is represented by its final component. *)

(** [s.rfind(c)] *)
Fixpoint rfind (c : char) (s : str) : option nat :=
  match s with
  | [] => None
  | x :: s' =>
      match rfind c s' with
      | Some i => Some (S i)
      | None => if char_eqb x c then Some 0 else None
      end
  end.

(** The index at which [PurePath.suffix] and [PurePath.stem] cut a name:
    the last dot, unless it is the first or the last character. *)
Definition suffix_index (name : str) : option nat :=
  match rfind DOT name with
  | Some i => if (0 <? i) && (i <? length name - 1) then Some i else None
  | None => None
  end.

Definition suffix (name : str) : str :=
  match suffix_index name with
  | Some i => skipn i name
  | None => []
  end.

Definition stem (name : str) : str :=
  match suffix_index name with
  | Some i => firstn i name
  | None => name
  end.

Definition with_suffix (name new_suffix : str) : str :=
  let old_suffix := suffix name in
  match old_suffix with
  | [] => name ++ new_suffix
  | _ => firstn (length name - length old_suffix) name ++ new_suffix
  end.

(** [str.lower] as far as a comparison with ASCII strings can tell: the
    code points that lowercase to an ASCII character are [A]..[Z] and
    U+212A (KELVIN SIGN). *)
Definition lower_char (c : char) : char :=
  if in_range 65 90 c then (c + 32)%N
  else if N.eqb c 8490 then 107%N
  else c.

Definition lower (s : str) : str := map lower_char s.

Definition audio_exts : list str :=
  [lit ".mp3"; lit ".m4a"; lit ".opus"; lit ".webm"; lit ".ogg";
   lit ".wav"; lit ".flac"; lit ".aac"; lit ".mp4"; lit ".mkv"].

Definition str_in (s : str) (l : list str) : bool := existsb (str_eqb s) l.

(** ** The download directory *)

Record entry := { entry_name : str; entry_ctime : Q }.

(** The directory listing, in the order the file system enumerates it. *)
Definition directory := list entry.

Definition exists_ (d : directory) (name : str) : bool :=
  existsb (fun e => str_eqb (entry_name e) name) d.

(** [max(items, key=key)]: the first item whose key no later one exceeds
    strictly. *)
Fixpoint max_by (A : Type) (key : A -> Q) (best : A) (items : list A) : A :=
  match items with
  | [] => best
  | x :: rest =>
      if Qgt_bool (key x) (key best) then max_by key x rest
      else max_by key best rest
  end.

(** What a call can end in.  [ArtifactNotFound] is the failure the
    specification names. *)
Inductive failure := ArtifactNotFound.

Inductive outcome (A : Type) :=
| Returned (a : A)
| Raised (e : failure).

Arguments Returned {A} a.
Arguments Raised {A} e.

Section Resolver.

(** [glob.glob] decides with [fnmatch] (and its rule for hidden files)
    which entries of the directory a pattern selects; that matcher is
    library code. *)
Variable glob_selects : str -> str -> bool.

(** [glob.glob(pattern)] in the download directory. *)
Definition glob (d : directory) (pattern : str) : list entry :=
  filter (fun e => glob_selects pattern (entry_name e)) d.

(** The candidate whose existence is tested first. *)
Definition candidate (audio_quality downloaded_file : str) : str :=
  if str_eqb audio_quality (lit "aac")
  then with_suffix downloaded_file (lit ".m4a")
  else downloaded_file.

(** The entries the fallback chooses among. *)
Definition fallback_files (d : directory) (downloaded_file : str)
    : list entry :=
  let base_name := stem downloaded_file in
  let pattern := base_name ++ lit ".*" in
  let files := glob d pattern in
  filter (fun f => str_in (lower (suffix (entry_name f))) audio_exts) files.

(** [download_audio] from the point where the download has finished:
    [d] is the download directory at that point, [downloaded_file] the
    value of [ydl.prepare_filename(info)] and [video_title] that of
    [info['title']].  No statement on this path raises. *)
Definition download_audio (d : directory)
    (audio_quality downloaded_file video_title : str)
    : outcome (str * str) :=
  let audio_file := candidate audio_quality downloaded_file in
  let audio_file :=
    if negb (exists_ d audio_file) then
      match fallback_files d downloaded_file with
      | f :: rest => entry_name (max_by entry_ctime f rest)
      | [] => audio_file
      end
    else audio_file in
  Returned (audio_file, video_title).

End Resolver.

(** A matcher for patterns made of literal characters, [?] and [*], which
    is how [fnmatch] reads a pattern that has no [[]. *)
Fixpoint wildcard_match (pattern name : str) : bool :=
  match pattern with
  | [] => match name with [] => true | _ => false end
  | p :: pattern' =>
      if N.eqb p 42 then
        (fix star (name : str) : bool :=
           wildcard_match pattern' name
           || match name with [] => false | _ :: name' => star name' end) name
      else
        match name with
        | [] => false
        | c :: name' =>
            (N.eqb p 63 || char_eqb p c) && wildcard_match pattern' name'
        end
  end.

(** [glob] leaves out the entries whose name starts with a dot unless the
    pattern does too. *)
Definition ishidden (s : str) : bool :=
  match s with c :: _ => char_eqb c DOT | [] => false end.

Definition simple_glob (pattern name : str) : bool :=
  (ishidden pattern || negb (ishidden name)) && wildcard_match pattern name.

(* ================================================================== *)
(** * Auxiliary definitions of the statements *)

(** The two characters that print a number below 100. *)
Definition two_digits (n : N) : str := [(48 + n / 10)%N; (48 + n mod 10)%N].

(** [p] holds of every number below [k]. *)
Fixpoint all_below (k : nat) (p : N -> bool) : bool :=
  match k with
  | O => true
  | S k' => p (N.of_nat k') && all_below k' p
  end.

(** Two clock readings. *)
Definition instant_1 : datetime :=
  {| year := 2024; month := 3; day := 9; hour := 7; minute := 5;
     second := 0 |}.
Definition instant_2 : datetime :=
  {| year := 2025; month := 12; day := 31; hour := 23; minute := 59;
     second := 59 |}.

(** ** Reading a timestamped body back

    The program has no reader for its files; the functions below are the
    line-oriented reader the round-trip property is stated with. *)





Fixpoint strip_prefix (p s : str) : option str :=
  match p, s with
  | [], _ => Some s
  | x :: p', y :: s' => if char_eqb x y then strip_prefix p' s' else None
  | _ :: _, [] => None
  end.









Definition mk_segment (a b : Q) (t : str) : Segment :=
  {| seg_start := a; seg_end := b; seg_text := t |}.

Definition mk_result (segs : list Segment) : TranscriptionResult :=
  {| language := lit "en"; text := []; segments := segs |}.


Definition is_digit (c : char) : bool := in_range 48 57 c.

(** The characters a timestamp can hold. *)
Definition is_stamp_char (c : char) : bool :=
  is_digit c || char_eqb c HYPHEN || char_eqb c COLON.





(** ** The paragraphs of the lyrics body

    The lyrics loop joins and writes each paragraph as soon as it is
    complete.  The loop below is the same loop with, in place of the file,
    the list of the paragraphs flushed so far. *)
Definition lyrics_step_log (segs : list Segment)
    (st : list str * list (list str)) (it : nat * Segment)
    : list str * list (list str) :=
  let '(current_paragraph, flushed) := st in
  let '(i, segment) := it in
  let text := strip (seg_text segment) in
  let current_paragraph := current_paragraph ++ [text] in
  let is_long_pause :=
    if i + 1 <? length segs then
      match nth_error segs (i + 1) with
      | Some next_segment =>
          let pause_duration :=
            (seg_start next_segment - seg_end segment)%Q in
          Qgt_bool pause_duration 1.5
      | None => false
      end
    else false in
  let is_paragraph_full := 6 <=? length current_paragraph in
  let is_last_segment := i =? length segs - 1 in
  if is_long_pause || is_paragraph_full || is_last_segment
  then ([], flushed ++ [current_paragraph])
  else (current_paragraph, flushed).

(** The paragraphs the lyrics loop flushes, in the order it flushes them. *)
Definition lyrics_paragraphs (segs : list Segment) : list (list str) :=
  snd (fold_left (lyrics_step_log segs) (enumerate segs) ([], [])).


(** ** Paragraphs as groups of segments

    The lyrics loop buffers texts; the grouping it induces on the segments
    themselves is stated with the definitions below. *)





(** No gap between consecutive segments exceeds 1.5 seconds. *)
Fixpoint gaps_within (segs : list Segment) : Prop :=
  match segs with
  | [] => True
  | a :: rest =>
      match rest with
      | b :: _ => (seg_start b - seg_end a <= 1.5)%Q
      | [] => True
      end /\ gaps_within rest
  end.




(** Seven segments one second apart, and two segments four seconds apart. *)
Definition seven_segments : list Segment :=
  map (fun k => mk_segment (inject_Z k) (inject_Z k + 1)%Q (lit "la"))
    [0; 1; 2; 3; 4; 5; 6]%Z.

Definition gap_segments : list Segment :=
  [mk_segment 0 1 (lit "a"); mk_segment 5 6 (lit "b")].


(** ** Statements about the resolver *)


(** An entry the fallback accepts: selected by the pattern [<stem>.*] and
    with a lower-cased extension in the allow-list. *)
Definition accepted (glob_selects : str -> str -> bool)
    (downloaded_file : str) (e : entry) : bool :=
  glob_selects (stem downloaded_file ++ lit ".*") (entry_name e)
  && str_in (lower (suffix (entry_name e))) audio_exts.

Definition mk_entry (name : string) (ctime : Q) : entry :=
  {| entry_name := lit name; entry_ctime := ctime |}.



(** A directory holding neither, but three files the pattern selects. *)
Definition fallback_directory : directory :=
  [mk_entry "song.ogg" 5; mk_entry "song.MP3" 7; mk_entry "song.x.mkv" 7;
   mk_entry "song.txt" 9].

(** No [*] and no [?] in a string. *)
Definition no_wildcard (s : str) : bool :=
  forallb (fun c => negb (N.eqb c 42 || N.eqb c 63)) s.


(** ** Statements about the saved files *)

(** A character that cannot leave the output directory: not a slash, not a
    backslash, not NUL. *)
Definition path_safe (c : char) : bool :=
  negb (N.eqb c 47 || N.eqb c 92 || N.eqb c 0).

(** The names of the three files [save_transcript] writes. *)
Definition saved_names (files : saved_file * saved_file * saved_file)
    : list str :=
  [file_name (fst (fst files)); file_name (snd (fst files));
   file_name (snd files)].




(** The same files as [fallback_directory], enumerated in another order. *)
Definition reordered_directory : directory :=
  [mk_entry "song.x.mkv" 8; mk_entry "song.txt" 9; mk_entry "song.MP3" 7;
   mk_entry "song.ogg" 5].

Definition distinct_directory : directory :=
  [mk_entry "song.ogg" 5; mk_entry "song.MP3" 7; mk_entry "song.x.mkv" 8;
   mk_entry "song.txt" 9].


(* ================================================================== *)
(** * The rest of [app.py]: options, menus, upload, cleanup, session *)

(** ** Python values and dictionaries of options *)

(** The values the option dictionaries hold: strings, booleans, and (for
    the post-processors) a list of dictionaries of strings. *)
Inductive pyval :=
| PStr (s : str)
| PBool (b : bool)
| PDicts (l : list (list (str * str))).

(** A [dict] with string keys, in insertion order. *)
Definition pydict := list (str * pyval).

(** [d.get(k)] *)
Fixpoint dict_get (d : pydict) (k : str) : option pyval :=
  match d with
  | [] => None
  | (k', v) :: d' => if str_eqb k' k then Some v else dict_get d' k
  end.

(** [d[k] = v] *)
Fixpoint dict_set (d : pydict) (k : str) (v : pyval) : pydict :=
  match d with
  | [] => [(k, v)]
  | (k', v') :: d' =>
      if str_eqb k' k then (k', v) :: d' else (k', v') :: dict_set d' k v
  end.

(** ** [__init__]: the device, and [transcribe_audio]: the engine options *)

(** [torch_cuda] is what [import torch; torch.cuda.is_available()] gives:
    [None] when either raises. *)
Definition init_device (device : str) (torch_cuda : option bool) : str :=
  if str_eqb device (lit "auto") then
    match torch_cuda with
    | Some true => lit "cuda"
    | Some false => lit "cpu"
    | None => lit "cpu"
    end
  else device.

(** The keyword arguments [transcribe_audio] passes to [model.transcribe];
    [self_device] is [self.device], [language] is [None] or a string. *)
Definition transcribe_options (self_device : str) (language : option str)
    : pydict :=
  let use_fp16 := str_eqb self_device (lit "cuda") in
  let transcribe_options := [(lit "fp16", PBool use_fp16)] in
  match language with
  | Some (c :: l) => dict_set transcribe_options (lit "language") (PStr (c :: l))
  | Some [] => transcribe_options
  | None => transcribe_options
  end.

(** ** [download_audio]: the options given to the downloader *)

Definition ydl_opts (audio_quality : str) : pydict :=
  let ydl_opts :=
    [(lit "format", PStr (lit "bestaudio/best"));
     (lit "outtmpl", PStr (lit "downloads/%(title)s.%(ext)s"));
     (lit "quiet", PBool true);
     (lit "no_warnings", PBool true)] in
  if str_eqb audio_quality (lit "aac") then
    dict_set ydl_opts (lit "postprocessors")
      (PDicts [[(lit "key", lit "FFmpegExtractAudio");
                (lit "preferredcodec", lit "aac");
                (lit "preferredquality", lit "192")]])
  else ydl_opts.

(** ** [main]: the menus of the sidebar *)

Definition quality_options : list (str * str) :=
  [(lit "Original", lit "original"); (lit "AAC", lit "aac")].

Definition language_options : list (str * option str) :=
  [(lit "Auto-detect", None);
   (lit "English (en)", Some (lit "en"));
   (lit "Spanish (es)", Some (lit "es"));
   (lit "French (fr)", Some (lit "fr"));
   (lit "German (de)", Some (lit "de"));
   (lit "Italian (it)", Some (lit "it"));
   (lit "Portuguese (pt)", Some (lit "pt"));
   (lit "Russian (ru)", Some (lit "ru"));
   (lit "Japanese (ja)", Some (lit "ja"));
   (lit "Chinese (zh)", Some (lit "zh"));
   (lit "Korean (ko)", Some (lit "ko"));
   (lit "Arabic (ar)", Some (lit "ar"));
   (lit "Hindi (hi)", Some (lit "hi"))].

(** [options[choice]] for a choice the select box offers. *)
Fixpoint menu_get (A : Type) (options : list (str * A)) (choice : str)
    : option A :=
  match options with
  | [] => None
  | (k, v) :: rest => if str_eqb k choice then Some v else menu_get rest choice
  end.

(** ** [main]: an uploaded file

    [uploaded_name] is the final component of [uploaded_file.name];
    [tmp_random] is the random part of the name [NamedTemporaryFile]
    chooses, between its prefix ["tmp"] and the requested suffix.  The
    result is the final component of [audio_file], the title and the
    source shown in the transcripts. *)
Definition upload_file (uploaded_name tmp_random : str) : str * str * str :=
  let audio_file := lit "tmp" ++ tmp_random ++ suffix uploaded_name in
  let video_title := stem uploaded_name in
  let source_url := lit "Local file: " ++ uploaded_name in
  (audio_file, video_title, source_url).

(** ** [main]: removing the audio file after a successful job *)

(** [s.startswith(p)] *)
Definition startswith (s p : str) : bool :=
  match strip_prefix p s with Some _ => true | None => false end.

(** [bool(s)] for a string. *)
Definition truthy (s : str) : bool :=
  match s with [] => false | _ => true end.

(** [path.unlink()] on a file system given as the listing of its paths. *)
Definition unlink (d : directory) (path : str) : directory :=
  filter (fun e => negb (str_eqb (entry_name e) path)) d.

(** The two cleanup statements that end a successful job; [d] lists the
    files on disk before, the result those after. *)
Definition cleanup (keep_audio : bool)
    (input_method source_url audio_file : str) (d : directory) : directory :=
  let d :=
    if negb keep_audio && truthy source_url
       && startswith source_url (lit "http")
    then if exists_ d audio_file then unlink d audio_file else d
    else d in
  if str_eqb input_method (lit "Upload File") && exists_ d audio_file
  then unlink d audio_file
  else d.

(** ** [main]: the session state *)

(** A key of [st.session_state]: absent, [None], or holding a value. *)
Inductive slot (A : Type) :=
| Missing
| PyNone
| Value (a : A).

Arguments Missing {A}.
Arguments PyNone {A}.
Arguments Value {A} a.

Record session_state := {
  ss_transcription_result : slot TranscriptionResult;
  ss_transcript_files : slot (str * str * str);
  ss_video_title : slot str
}.

(** [if key not in st.session_state: st.session_state.key = None] *)
Definition init_slot (A : Type) (s : slot A) : slot A :=
  match s with Missing => PyNone | _ => s end.

Definition init_session (st : session_state) : session_state :=
  {| ss_transcription_result := init_slot (ss_transcription_result st);
     ss_transcript_files := init_slot (ss_transcript_files st);
     ss_video_title := init_slot (ss_video_title st) |}.

(** The "New Transcription" button. *)
Definition new_transcription (st : session_state) : session_state :=
  {| ss_transcription_result := PyNone;
     ss_transcript_files := PyNone;
     ss_video_title := PyNone |}.

(** The three assignments after [save_transcript] has returned. *)
Definition store_result (result : TranscriptionResult)
    (files : str * str * str) (video_title : str) (st : session_state)
    : session_state :=
  {| ss_transcription_result := Value result;
     ss_transcript_files := Value files;
     ss_video_title := Value video_title |}.

(** What a run of the script does to the session state: it first
    initialises the missing keys; then the button, when it is shown (a
    result is stored) and pressed, clears the three keys and the run
    starts over; otherwise a job that succeeds stores its result. *)
Inductive script_run : session_state -> session_state -> Prop :=
| run_idle st : script_run st (init_session st)
| run_new_transcription st :
    ss_transcription_result (init_session st) <> PyNone ->
    script_run st (new_transcription (init_session st))
| run_job st result files video_title :
    script_run st (store_result result files video_title (init_session st)).

(** The states a browser session can be in between two runs. *)
Inductive session_reachable : session_state -> Prop :=
| reach_fresh :
    session_reachable
      {| ss_transcription_result := Missing;
         ss_transcript_files := Missing;
         ss_video_title := Missing |}
| reach_run st st' :
    session_reachable st -> script_run st st' -> session_reachable st'.


(** The three keys are absent together, [None] together, or set
    together. *)
Definition session_uniform (st : session_state) : Prop :=
  (ss_transcription_result st = Missing /\ ss_transcript_files st = Missing
   /\ ss_video_title st = Missing)
  \/ (ss_transcription_result st = PyNone /\ ss_transcript_files st = PyNone
      /\ ss_video_title st = PyNone)
  \/ (exists result files video_title,
        st = {| ss_transcription_result := Value result;
                ss_transcript_files := Value files;
                ss_video_title := Value video_title |}).

(* ================================================================== *)
(** * Properties *)

(** ** Strings and decimal digits *)

Lemma str_eqb_eq (a b : str) : str_eqb a b = true <-> a = b.
Proof.
  revert b; induction a as [|x a IH]; intros [|y b]; simpl;
    try (split; [discriminate | discriminate]); try tauto.
  unfold char_eqb. rewrite andb_true_iff, N.eqb_eq, IH.
  split; [intros [-> ->]; reflexivity | intros H; inversion H; auto].
Qed.

Lemma str_eqb_refl (a : str) : str_eqb a a = true.
Proof. now apply str_eqb_eq. Qed.




Lemma all_below_spec (k : nat) (p : N -> bool) :
  all_below k p = true -> forall n, (n < N.of_nat k)%N -> p n = true.
Proof.
  induction k as [|k IH]; simpl; intros H n Hn; [lia|].
  apply andb_true_iff in H as [H1 H2].
  destruct (N.eq_dec n (N.of_nat k)) as [->|Hne]; [exact H1|].
  apply IH; [exact H2 | lia].
Qed.

Lemma all_below_N (k : N) (p : N -> bool) :
  all_below (N.to_nat k) p = true -> forall n, (n < k)%N -> p n = true.
Proof.
  intros H n Hn. apply (all_below_spec _ _ H). now rewrite N2Nat.id.
Qed.

Lemma zfill_small (n : N) :
  (n < 100)%N -> zfill 2 (str_of_N n) = two_digits n.
Proof.
  intros H. apply str_eqb_eq.
  apply (@all_below_N 100%N
           (fun n => str_eqb (zfill 2 (str_of_N n)) (two_digits n)));
    [vm_compute; reflexivity | exact H].
Qed.


Lemma format_0d_nonneg (w : nat) (z : Z) :
  (0 <= z)%Z -> format_0d w z = zfill w (str_of_N (Z.to_N z)).
Proof.
  intros H. unfold format_0d.
  destruct (Z.ltb_spec z 0) as [Hlt|_]; [lia | reflexivity].
Qed.

(** ** Floor arithmetic of the timestamp fields *)








(** ** C5: the timestamp encoder *)




(** ** C6, C10: the file-name stem *)

Lemma rstrip_split (s : str) :
  exists ws, s = rstrip s ++ ws /\ Forall (fun c => isspace c = true) ws.
Proof.
  induction s as [|c s (ws & E & F)]; simpl.
  - exists []. split; [reflexivity | constructor].
  - destruct (rstrip s) as [|r0 r] eqn:R.
    + destruct (isspace c) eqn:Hc.
      * exists (c :: ws). simpl in E. subst ws.
        split; [reflexivity | now constructor].
      * exists ws. simpl in *. subst ws. now split.
    + exists ws. split; [|exact F].
      change ((c :: r0 :: r) ++ ws) with (c :: ((r0 :: r) ++ ws)).
      now rewrite <- E.
Qed.

Lemma rstrip_last (s r : str) (c : char) :
  rstrip s = r ++ [c] -> isspace c = false.
Proof.
  revert r; induction s as [|x s IH]; simpl; intros r E.
  - now destruct r.
  - destruct (rstrip s) as [|r0 r'] eqn:R.
    + destruct (isspace x) eqn:Hx; [now destruct r|].
      destruct r as [|y r]; simpl in E; inversion E; subst; [exact Hx|].
      now destruct r.
    + destruct r as [|y r]; simpl in E; inversion E; subst.
      eapply IH; eassumption.
Qed.

Lemma length_fmtN2 (n : N) : (n < 100)%N -> length (fmtN 2 n) = 2.
Proof.
  intros H. unfold fmtN. rewrite format_0d_nonneg by lia.
  rewrite N2Z.id, zfill_small by exact H. reflexivity.
Qed.

Lemma length_fmtN4 (n : N) : (n < 10000)%N -> length (fmtN 4 n) = 4.
Proof.
  intros H. unfold fmtN. rewrite format_0d_nonneg by lia. rewrite N2Z.id.
  apply Nat.eqb_eq.
  apply (@all_below_N 10000%N
           (fun n => length (zfill 4 (str_of_N n)) =? 4));
    [vm_compute; reflexivity | exact H].
Qed.

Lemma length_strftime_compact (t : datetime) :
  valid_datetime t -> length (strftime_compact t) = 15.
Proof.
  intros (Hy & Hm & Hd & Hh & Hmi & Hs). unfold strftime_compact.
  rewrite !length_app, length_fmtN4, !length_fmtN2 by lia. reflexivity.
Qed.

(** C6. The stem is the title filtered to the characters that are
    alphanumeric, space, hyphen or underscore (every other character is
    dropped, nothing is put in its place), with trailing whitespace
    stripped, cut to its first 50 characters, followed by an underscore and
    the instant as [YYYYMMDD_HHMMSS] (15 characters); so two titles with the
    same sanitized prefix give stems of the same length, at most 66,
    whatever the titles' own lengths.  The three files are named by this
    stem followed by ".txt", "_timestamps.txt" and "_lyrics.txt". *)
Theorem stem_of_spec (unicode_isalnum : char -> bool)
    (title : str) (now : datetime) :
  let kept := filter (keeps unicode_isalnum) title in
  let sanitized := safe_title unicode_isalnum title in
  stem_of unicode_isalnum title now
    = firstn 50 (rstrip kept) ++ [UNDERSCORE] ++ strftime_compact now
  /\ (forall c, In c kept <->
        In c title /\ (isalnum unicode_isalnum c = true
                       \/ c = SPACE \/ c = HYPHEN \/ c = UNDERSCORE))
  /\ (exists ws, kept = rstrip kept ++ ws
                 /\ Forall (fun c => isspace c = true) ws)
  /\ (forall r c, rstrip kept = r ++ [c] -> isspace c = false)
  /\ sanitized = firstn 50 (rstrip kept)
  /\ length sanitized = Nat.min 50 (length (rstrip kept))
  /\ (valid_datetime now ->
      length (strftime_compact now) = 15
      /\ length (stem_of unicode_isalnum title now) = length sanitized + 16
      /\ length (stem_of unicode_isalnum title now) <= 66)
  /\ (forall title' now',
        valid_datetime now -> valid_datetime now' ->
        safe_title unicode_isalnum title' = sanitized ->
        length (stem_of unicode_isalnum title' now')
        = length (stem_of unicode_isalnum title now))
  /\ (forall now' result source_url,
        let files :=
          save_transcript unicode_isalnum now now' title result source_url in
        file_name (fst (fst files))
        = stem_of unicode_isalnum title now ++ lit ".txt"
        /\ file_name (snd (fst files))
           = stem_of unicode_isalnum title now ++ lit "_timestamps.txt"
        /\ file_name (snd files)
           = stem_of unicode_isalnum title now ++ lit "_lyrics.txt").
Proof.
  intros kept sanitized.
  assert (L : length sanitized = Nat.min 50 (length (rstrip kept)))
    by apply length_firstn.
  assert (S : forall t n, valid_datetime n ->
            length (stem_of unicode_isalnum t n)
            = length (safe_title unicode_isalnum t) + 16).
  { intros t n V. unfold stem_of.
    rewrite !length_app, (length_strftime_compact V). simpl. lia. }
  split; [reflexivity|]. split.
  { intros c. unfold kept. rewrite filter_In. unfold keeps, char_in.
    rewrite orb_true_iff. simpl. unfold char_eqb.
    rewrite !orb_true_iff, !N.eqb_eq. intuition congruence. }
  split; [apply rstrip_split|].
  split; [apply rstrip_last|].
  split; [reflexivity|]. split; [exact L|]. split.
  - intros V. split; [now apply length_strftime_compact|].
    split; [now apply S|]. rewrite (S _ _ V). fold sanitized. lia.
  - split.
    + intros title' now' V V' E. rewrite (S _ _ V), (S _ _ V'), E.
      reflexivity.
    + intros now' result source_url files.
      unfold files, save_transcript, stem_of. cbn [fst snd file_name].
      rewrite <- !app_assoc. auto.
Qed.

Lemma valid_instant_1 : valid_datetime instant_1.
Proof. unfold valid_datetime; simpl; lia. Defined.
Lemma valid_instant_2 : valid_datetime instant_2.
Proof. unfold valid_datetime; simpl; lia. Defined.

(** A 60-character and a 200-character title with the same first 50
    characters. *)
Lemma stem_of_spec_witness :
  length (stem_of (fun _ => false) (repeat 97%N 200) instant_2)
  = length (stem_of (fun _ => false) (repeat 97%N 60) instant_1).
Proof.
  apply (stem_of_spec (fun _ => false) (repeat 97%N 60) instant_1).
  - exact valid_instant_1.
  - exact valid_instant_2.
  - vm_compute. reflexivity.
Defined.

(** C10. Some title (49 letters, a space, one more letter) has a sanitized
    part ending in a space: [rstrip] runs before the cut to 50 characters
    and not again after it, so the stem then reads "... _<timestamp>". *)
Theorem safe_title_may_end_in_space (unicode_isalnum : char -> bool) :
  exists title r : str,
    title = repeat 97%N 49 ++ [SPACE] ++ lit "b"
    /\ safe_title unicode_isalnum title = r ++ [SPACE]
    /\ rstrip (safe_title unicode_isalnum title)
       <> safe_title unicode_isalnum title
    /\ forall now, stem_of unicode_isalnum title now
                   = r ++ [SPACE; UNDERSCORE] ++ strftime_compact now.
Proof.
  exists (repeat 97%N 49 ++ [SPACE] ++ lit "b"), (repeat 97%N 49).
  split; [reflexivity|].
  assert (E : safe_title unicode_isalnum (repeat 97%N 49 ++ [SPACE] ++ lit "b")
              = repeat 97%N 49 ++ [SPACE]) by (vm_compute; reflexivity).
  split; [exact E|]. split.
  - rewrite E. vm_compute. discriminate.
  - intros now. unfold stem_of. rewrite E, <- app_assoc. reflexivity.
Qed.

(** ** C8, C9: the full-text body and the bodies of an empty transcript *)

Lemma lstrip_split (s : str) :
  exists ws, s = ws ++ lstrip s /\ Forall (fun c => isspace c = true) ws.
Proof.
  induction s as [|c s (ws & E & F)]; simpl.
  - exists []. split; [reflexivity | constructor].
  - destruct (isspace c) eqn:Hc.
    + exists (c :: ws). simpl. rewrite <- E.
      split; [reflexivity | now constructor].
    + exists []. split; [reflexivity | constructor].
Qed.

Lemma lstrip_head (s r : str) (c : char) :
  lstrip s = c :: r -> isspace c = false.
Proof.
  induction s as [|x s IH]; simpl; [discriminate|].
  destruct (isspace x) eqn:Hx; [exact IH|].
  intros E; inversion E; subst; exact Hx.
Qed.

Lemma rstrip_head (s r : str) (c : char) :
  rstrip s = c :: r -> exists s', s = c :: s'.
Proof.
  destruct s as [|x s]; simpl; [discriminate|].
  destruct (rstrip s); [destruct (isspace x)|];
    intros E; inversion E; subst; eauto.
Qed.

(** [strip] removes whitespace, and only whitespace, at both ends. *)
Lemma strip_spec (s : str) :
  (exists l r, s = l ++ strip s ++ r
               /\ Forall (fun c => isspace c = true) l
               /\ Forall (fun c => isspace c = true) r)
  /\ (forall c r, strip s = c :: r -> isspace c = false)
  /\ (forall r c, strip s = r ++ [c] -> isspace c = false).
Proof.
  unfold strip. split; [|split].
  - destruct (lstrip_split s) as (l & El & Fl).
    destruct (rstrip_split (lstrip s)) as (r & Er & Fr).
    exists l, r. rewrite <- Er. auto.
  - intros c r E. destruct (rstrip_head _ E) as (s' & E').
    eapply lstrip_head; eassumption.
  - apply rstrip_last.
Qed.

Lemma length_strftime_date (t : datetime) :
  valid_datetime t -> length (strftime_date t) = 19.
Proof.
  intros (Hy & Hm & Hd & Hh & Hmi & Hs). unfold strftime_date.
  rewrite !length_app, length_fmtN4, !length_fmtN2 by lia. reflexivity.
Qed.

(** C8. The full-text file holds the four header lines
    "Transcription of: <title>", "Source: <source>",
    "Date: <YYYY-MM-DD HH:MM:SS>" and "Language: <lang>", a line of 80 '='
    characters, a blank line, and [result.text] stripped of leading and
    trailing whitespace; the segments have no influence on it. *)
Theorem full_text_body_spec (unicode_isalnum : char -> bool)
    (now now' : datetime) (video_title source_url : str)
    (result : TranscriptionResult) :
  let txt_file :=
    fst (fst (save_transcript unicode_isalnum now now' video_title result
                source_url)) in
  file_content txt_file
    = lit "Transcription of: " ++ video_title ++ [LF]
      ++ lit "Source: " ++ source_url ++ [LF]
      ++ lit "Date: " ++ strftime_date now' ++ [LF]
      ++ lit "Language: " ++ language result ++ [LF]
      ++ repeat EQUALS 80 ++ [LF] ++ [LF]
      ++ strip (text result)
  /\ strftime_date now'
     = fmtN 4 (year now') ++ lit "-" ++ fmtN 2 (month now') ++ lit "-"
       ++ fmtN 2 (day now') ++ lit " " ++ fmtN 2 (hour now') ++ lit ":"
       ++ fmtN 2 (minute now') ++ lit ":" ++ fmtN 2 (second now')
  /\ (valid_datetime now' -> length (strftime_date now') = 19)
  /\ (exists l r, text result = l ++ strip (text result) ++ r
                  /\ Forall (fun c => isspace c = true) l
                  /\ Forall (fun c => isspace c = true) r)
  /\ (forall c r, strip (text result) = c :: r -> isspace c = false)
  /\ (forall r c, strip (text result) = r ++ [c] -> isspace c = false)
  /\ (forall segments',
        file_content
          (fst (fst (save_transcript unicode_isalnum now now' video_title
                       {| language := language result;
                          text := text result;
                          segments := segments' |} source_url)))
        = file_content txt_file).
Proof.
  intros txt_file. split.
  { unfold txt_file, save_transcript, full_text_body, write, separator.
    simpl. rewrite <- !app_assoc. simpl.
    repeat (f_equal; try rewrite <- !app_assoc; simpl). }
  split; [reflexivity|].
  split; [apply length_strftime_date|].
  destruct (strip_spec (text result)) as (A & B & C).
  repeat split; assumption.
Qed.

Lemma full_text_body_spec_witness :
  length (strftime_date instant_1) = 19.
Proof.
  apply (full_text_body_spec (fun _ => false) instant_1 instant_1
           (lit "Song") (lit "https://example.org/v")
           {| language := lit "en"; text := lit " la la "; segments := [] |}).
  exact valid_instant_1.
Defined.

(** C9. With an empty segment sequence [save_transcript] still produces its
    three files; the timestamped body and the lyrics body are then exactly
    their header (title line, source line, 80 '=' characters, blank line):
    no segment block follows and no paragraph, not even an empty one, is
    flushed. *)
Theorem save_transcript_no_segments (unicode_isalnum : char -> bool)
    (now now' : datetime) (video_title source_url lang full_text : str) :
  let result :=
    {| language := lang; text := full_text; segments := [] |} in
  exists txt_file srt_file lyrics_file,
    save_transcript unicode_isalnum now now' video_title result source_url
      = (txt_file, srt_file, lyrics_file)
    /\ file_content srt_file
       = lit "Transcription with timestamps of: " ++ video_title ++ [LF]
         ++ lit "Source: " ++ source_url ++ [LF]
         ++ repeat EQUALS 80 ++ [LF] ++ [LF]
    /\ file_content lyrics_file
       = lit "Transcription of: " ++ video_title ++ [LF]
         ++ lit "Source: " ++ source_url ++ [LF]
         ++ repeat EQUALS 80 ++ [LF] ++ [LF]
    /\ lyrics_paragraphs (segments result) = [].
Proof.
  intros result. unfold save_transcript.
  eexists _, _, _. split; [reflexivity|]. simpl.
  unfold timestamped_body, lyrics_body, timestamped_header, lyrics_header,
    write, separator. simpl.
  repeat split; rewrite <- ?app_assoc; simpl;
    repeat (f_equal; rewrite <- ?app_assoc; simpl).
Qed.

(** ** C7: the timestamped body *)


Lemma digits_str_of_uint (d : Decimal.uint) :
  forallb is_digit (str_of_uint d) = true.
Proof. induction d; simpl; auto. Qed.

Lemma digits_zfill (w : nat) (s : str) :
  forallb is_digit s = true -> forallb is_digit (zfill w s) = true.
Proof.
  intros H. unfold zfill. rewrite forallb_app, H, andb_true_r.
  induction (w - length s); simpl; auto.
Qed.

Lemma forallb_weaken (A : Type) (p q : A -> bool) (l : list A) :
  (forall x, p x = true -> q x = true) ->
  forallb p l = true -> forallb q l = true.
Proof.
  intros W. induction l as [|x l IH]; simpl; [auto|].
  rewrite !andb_true_iff. intros [H1 H2]. auto.
Qed.

Lemma stamp_chars_format_0d (w : nat) (z : Z) :
  forallb is_stamp_char (format_0d w z) = true.
Proof.
  assert (D : forall w n, forallb is_stamp_char (zfill w (str_of_N n)) = true).
  { intros w' n. apply forallb_weaken with (p := is_digit).
    - intros x Hx. unfold is_stamp_char. now rewrite Hx.
    - apply digits_zfill, digits_str_of_uint. }
  unfold format_0d. destruct (z <? 0)%Z; simpl; [|apply D].
  apply D.
Qed.






















(** ** C3, C4: the paragraphs of the lyrics body *)

Lemma Qgt_bool_true (a b : Q) : Qgt_bool a b = true <-> (b < a)%Q.
Proof.
  unfold Qgt_bool. rewrite negb_true_iff. split.
  - intros H. apply Qnot_le_lt. intros L.
    apply Qle_bool_iff in L. congruence.
  - intros H. destruct (Qle_bool a b) eqn:E; [|reflexivity].
    apply Qle_bool_iff in E. exfalso. eapply Qlt_not_le; eassumption.
Qed.

Lemma Qgt_bool_false (a b : Q) : Qgt_bool a b = false <-> (a <= b)%Q.
Proof. unfold Qgt_bool. rewrite negb_false_iff. apply Qle_bool_iff. Qed.












Lemma gaps_within_app_l (l r : list Segment) :
  gaps_within (l ++ r) -> gaps_within l.
Proof.
  induction l as [|a l IH]; simpl; [tauto|].
  intros [H1 H2]. split; [|auto].
  destruct l; simpl in *; [exact I | assumption].
Qed.









(** Seven close segments give paragraphs of 6 and 1 lines; a gap of four
    seconds separates two paragraphs of one line each. *)
Example lyrics_paragraphs_examples :
  map (@length str) (lyrics_paragraphs seven_segments) = [6; 1]
  /\ lyrics_paragraphs gap_segments = [[lit "a"]; [lit "b"]].
Proof. split; vm_compute; reflexivity. Qed.

(** ** C1, C2: the resolver *)

Lemma exists_In (d : directory) (name : str) :
  exists_ d name = true <-> exists e, In e d /\ entry_name e = name.
Proof.
  unfold exists_. rewrite existsb_exists.
  split; intros (e & H1 & H2); exists e; split; auto;
    now apply str_eqb_eq.
Qed.

(** [max_by] returns the first of the items with the greatest key. *)
Lemma max_by_scan (A : Type) (key : A -> Q) (items : list A) :
  forall (best : A) (before mid : list A),
    Forall (fun x => (key x < key best)%Q) before ->
    Forall (fun x => (key x <= key best)%Q) mid ->
    exists pre post,
      before ++ best :: mid ++ items = pre ++ max_by key best items :: post
      /\ Forall (fun x => (key x < key (max_by key best items))%Q) pre
      /\ Forall (fun x => (key x <= key (max_by key best items))%Q) post.
Proof.
  induction items as [|x rest IH]; intros best before mid Hb Hm.
  - exists before, mid. simpl. rewrite List.app_nil_r. auto.
  - cbn [max_by]. destruct (Qgt_bool (key x) (key best)) eqn:C.
    + apply Qgt_bool_true in C.
      destruct (IH x (before ++ best :: mid) []) as (pre & post & E & P1 & P2).
      * apply Forall_app. split.
        -- eapply Forall_impl; [|exact Hb]. intros y Hy. cbv beta in *.
           eapply Qlt_trans; eassumption.
        -- constructor; [exact C|].
           eapply Forall_impl; [|exact Hm]. intros y Hy. cbv beta in *.
           eapply Qle_lt_trans; eassumption.
      * constructor.
      * exists pre, post. split; [|auto].
        rewrite <- E. rewrite <- !app_assoc. reflexivity.
    + apply Qgt_bool_false in C.
      destruct (IH best before (mid ++ [x])) as (pre & post & E & P1 & P2).
      * exact Hb.
      * apply Forall_app. split; [exact Hm | now constructor].
      * exists pre, post. split; [|auto].
        rewrite <- E. rewrite <- !app_assoc. reflexivity.
Qed.

Lemma max_by_first (A : Type) (key : A -> Q) (best : A) (items : list A) :
  exists pre post,
    best :: items = pre ++ max_by key best items :: post
    /\ Forall (fun x => (key x < key (max_by key best items))%Q) pre
    /\ Forall (fun x => (key x <= key (max_by key best items))%Q) post.
Proof.
  destruct (@max_by_scan A key items best [] []) as (pre & post & E & P);
    try constructor.
  exists pre, post. split; [exact E | exact P].
Qed.

Lemma fallback_files_In (glob_selects : str -> str -> bool)
    (d : directory) (downloaded_file : str) (e : entry) :
  In e (fallback_files glob_selects d downloaded_file)
  <-> In e d /\ accepted glob_selects downloaded_file e = true.
Proof.
  unfold fallback_files, glob, accepted.
  rewrite !filter_In, andb_true_iff. tauto.
Qed.

Lemma fallback_files_filter (glob_selects : str -> str -> bool)
    (d : directory) (downloaded_file : str) :
  fallback_files glob_selects d downloaded_file
  = filter (accepted glob_selects downloaded_file) d.
Proof.
  unfold fallback_files, glob, accepted.
  induction d as [|e d IH]; cbn [filter]; [reflexivity|].
  destruct (glob_selects (stem downloaded_file ++ lit ".*") (entry_name e));
    cbn [filter andb]; [|exact IH].
  destruct (str_in (lower (suffix (entry_name e))) audio_exts);
    now rewrite IH.
Qed.

Lemma wildcard_star_any (name : str) : wildcard_match [42%N] name = true.
Proof.
  induction name as [|c name IH]; [reflexivity|].
  cbn in *. exact IH.
Qed.

(** For a stem without wildcard characters, the pattern [<stem>.*] selects
    the names that start with the stem and a dot. *)
Lemma wildcard_match_stem (s name : str) :
  no_wildcard s = true ->
  wildcard_match (s ++ lit ".*") name = true
  <-> exists rest, name = s ++ DOT :: rest.
Proof.
  revert name; induction s as [|x s IH]; intros name W.
  - change ([] ++ lit ".*") with [DOT; 42%N].
    destruct name as [|c name].
    + split; [discriminate | intros (rest & E); discriminate].
    + change (wildcard_match [DOT; 42%N] (c :: name))
        with ((N.eqb DOT 63 || char_eqb DOT c)
              && wildcard_match [42%N] name).
      rewrite wildcard_star_any, andb_true_r. unfold char_eqb.
      change (N.eqb DOT 63) with false. cbn [orb].
      rewrite N.eqb_eq. split.
      * intros <-. now exists name.
      * intros (rest & E). simpl in E. now inversion E.
  - cbn [no_wildcard forallb] in W. apply andb_true_iff in W as [Wx Ws].
    apply negb_true_iff, orb_false_iff in Wx as [W1 W2].
    cbn [app wildcard_match]. rewrite W1, W2.
    destruct name as [|c name].
    + split; [discriminate | intros (rest & E); discriminate].
    + cbn [orb]. rewrite andb_true_iff, (IH name Ws).
      unfold char_eqb. rewrite N.eqb_eq. split.
      * intros (<- & rest & ->). now exists rest.
      * intros (rest & E). simpl in E. inversion E; subst.
        split; [reflexivity | now exists rest].
Qed.

Lemma simple_glob_stem (s name : str) :
  no_wildcard s = true ->
  simple_glob (s ++ lit ".*") name = true
  <-> exists rest, name = s ++ DOT :: rest.
Proof.
  intros W. unfold simple_glob.
  rewrite andb_true_iff, (@wildcard_match_stem s name W). split.
  - now intros [_ H].
  - intros (rest & ->). split; [|now exists rest].
    destruct s as [|x s]; [reflexivity|].
    cbn [app ishidden]. now destruct (char_eqb x DOT).
Qed.





Lemma suffix_index_bound (name : str) (i : nat) :
  suffix_index name = Some i -> 0 < i < length name - 1.
Proof.
  unfold suffix_index. destruct (rfind DOT name) as [j|]; [|discriminate].
  destruct (0 <? j) eqn:A; destruct (j <? length name - 1) eqn:B;
    simpl; try discriminate.
  intros E; inversion E; subst.
  apply Nat.ltb_lt in A, B. lia.
Qed.

(** [with_suffix] replaces the extension: it keeps the stem. *)
Lemma with_suffix_stem (name new_suffix : str) :
  with_suffix name new_suffix = stem name ++ new_suffix.
Proof.
  unfold with_suffix, suffix, stem.
  destruct (suffix_index name) as [i|] eqn:E; [|reflexivity].
  apply suffix_index_bound in E.
  destruct (skipn i name) as [|c r] eqn:S.
  - apply (f_equal (@length _)) in S. rewrite length_skipn in S.
    simpl in S. lia.
  - rewrite <- S, length_skipn. f_equal. f_equal. lia.
Qed.



(** In [fallback_directory] the fallback returns [song.MP3]: the
    extension is compared in lower case, [song.x.mkv] is selected too but
    comes later with the same creation time, [song.txt] is newer but not a
    media file. *)
Example download_audio_fallback_example :
  download_audio simple_glob fallback_directory (lit "original")
    (lit "song.webm") (lit "Song")
  = Returned (lit "song.MP3", lit "Song")
  /\ map entry_name
       (filter (accepted simple_glob (lit "song.webm")) fallback_directory)
     = [lit "song.ogg"; lit "song.MP3"; lit "song.x.mkv"].
Proof. split; vm_compute; reflexivity. Qed.

(* ================================================================== *)
(** * Further properties of the program *)

(** ** The timestamp encoder beyond whole, small, non-negative times *)










(** ** The names of the saved files *)

Lemma In_firstn_In (A : Type) (n : nat) (l : list A) (x : A) :
  In x (firstn n l) -> In x l.
Proof.
  intros H. rewrite <- (firstn_skipn n l). apply in_or_app. now left.
Qed.

Lemma safe_title_keeps (unicode_isalnum : char -> bool) (title : str)
    (c : char) :
  In c (safe_title unicode_isalnum title) ->
  In c title /\ keeps unicode_isalnum c = true.
Proof.
  unfold safe_title. intros H. apply In_firstn_In in H.
  destruct (rstrip_split (filter (keeps unicode_isalnum) title))
    as (ws & E & _).
  apply filter_In. rewrite E. apply in_or_app. now left.
Qed.

Lemma keeps_path_safe (unicode_isalnum : char -> bool) (c : char) :
  keeps unicode_isalnum c = true -> path_safe c = true /\ c <> DOT.
Proof.
  intros K. unfold path_safe. split.
  - destruct (N.eqb_spec c 47) as [->|]; [vm_compute in K; discriminate|].
    destruct (N.eqb_spec c 92) as [->|]; [vm_compute in K; discriminate|].
    destruct (N.eqb_spec c 0) as [->|]; [vm_compute in K; discriminate|].
    reflexivity.
  - intros ->. vm_compute in K. discriminate.
Qed.

Lemma stamp_char_path_safe (c : char) :
  is_stamp_char c = true -> path_safe c = true.
Proof.
  intros K. unfold path_safe.
  destruct (N.eqb_spec c 47) as [->|]; [vm_compute in K; discriminate|].
  destruct (N.eqb_spec c 92) as [->|]; [vm_compute in K; discriminate|].
  destruct (N.eqb_spec c 0) as [->|]; [vm_compute in K; discriminate|].
  reflexivity.
Qed.

Lemma strftime_compact_path_safe (t : datetime) :
  forallb path_safe (strftime_compact t) = true.
Proof.
  unfold strftime_compact, fmtN. rewrite !forallb_app.
  assert (F : forall w z, forallb path_safe (format_0d w z) = true).
  { intros w z. eapply forallb_weaken; [apply stamp_char_path_safe|].
    apply stamp_chars_format_0d. }
  rewrite !F. reflexivity.
Qed.

(** The common shape of the three names. *)
Lemma saved_name_path_safe (unicode_isalnum : char -> bool)
    (title : str) (now : datetime) (role : str) :
  forallb path_safe role = true ->
  let name := safe_title unicode_isalnum title ++ [UNDERSCORE]
              ++ strftime_compact now ++ role in
  forallb path_safe name = true /\ (forall r, name <> DOT :: r).
Proof.
  intros R name. split.
  - unfold name. rewrite !forallb_app, strftime_compact_path_safe, R.
    change (forallb path_safe [UNDERSCORE]) with true.
    rewrite !andb_true_r.
    apply forallb_forall. intros c Hc.
    apply safe_title_keeps in Hc as [_ K].
    now apply keeps_path_safe in K.
  - intros r E. unfold name in E.
    destruct (safe_title unicode_isalnum title) as [|c s] eqn:S.
    + simpl in E. inversion E.
    + assert (Hc : In c (safe_title unicode_isalnum title))
        by (rewrite S; now left).
      apply safe_title_keeps in Hc as [_ K].
      apply keeps_path_safe in K as [_ K]. simpl in E. inversion E.
      contradiction.
Qed.

(** X4. The three files get three different names; no name contains a
    slash, a backslash or NUL, and none starts with a dot, so every file is
    created directly in the output directory and is never hidden; with a
    clock reading of four-digit year the names have at most 81
    characters. *)
Theorem saved_names_flat_distinct (unicode_isalnum : char -> bool)
    (now now' : datetime) (video_title : str)
    (result : TranscriptionResult) (source_url : str) :
  let names :=
    saved_names (save_transcript unicode_isalnum now now' video_title
                   result source_url) in
  NoDup names
  /\ Forall (fun name => forallb path_safe name = true
                         /\ forall r, name <> DOT :: r) names
  /\ (valid_datetime now -> Forall (fun name => length name <= 81) names).
Proof.
  intros names. unfold names, saved_names, save_transcript.
  cbn [fst snd file_name].
  set (P := safe_title unicode_isalnum video_title).
  set (T := strftime_compact now).
  split; [|split].
  - assert (L : forall role, length (P ++ [UNDERSCORE] ++ T ++ role)
                            = length P + 1 + length T + length role)
      by (intros role; rewrite !length_app; simpl; lia).
    assert (D : forall r1 r2, length r1 <> length r2 ->
                P ++ [UNDERSCORE] ++ T ++ r1 <> P ++ [UNDERSCORE] ++ T ++ r2).
    { intros r1 r2 Hr H. apply (f_equal (@length _)) in H.
      rewrite !L in H. lia. }
    apply NoDup_cons; [|apply NoDup_cons; [|apply NoDup_cons;
                                              [|apply NoDup_nil]]].
    + intros [H|[H|[]]]; revert H; apply D; simpl; lia.
    + intros [H|[]]; revert H; apply D; simpl; lia.
    + intros [].
  - apply Forall_cons; [|apply Forall_cons; [|apply Forall_cons;
                                                [|apply Forall_nil]]];
      apply (@saved_name_path_safe unicode_isalnum video_title now);
      reflexivity.
  - intros V.
    assert (LP : length P <= 50).
    { unfold P, safe_title. rewrite length_firstn. lia. }
    assert (LT : length T = 15) by now apply length_strftime_compact.
    apply Forall_cons; [|apply Forall_cons; [|apply Forall_cons;
                                                [|apply Forall_nil]]];
      rewrite !length_app, LT; simpl; lia.
Qed.

Lemma saved_names_flat_distinct_witness :
  Forall (fun name => length name <= 81)
    (saved_names (save_transcript (fun _ => false) instant_1 instant_2
                    (lit "a/b: ..\c") (mk_result []) (lit "u"))).
Proof.
  apply (saved_names_flat_distinct (fun _ => false) instant_1 instant_2
           (lit "a/b: ..\c") (mk_result []) (lit "u")).
  exact valid_instant_1.
Defined.

Lemma rstrip_nil_iff (s : str) :
  rstrip s = [] <-> forallb isspace s = true.
Proof.
  induction s as [|c s IH]; simpl; [tauto|].
  destruct (rstrip s) as [|r0 r].
  - destruct (isspace c); simpl.
    + split; [intros _; now apply IH | reflexivity].
    + split; discriminate.
  - split; [discriminate|]. rewrite andb_true_iff. intros [_ H].
    apply IH in H. discriminate.
Qed.

(** X5. The sanitized title is empty exactly when every character of the
    title that the filter keeps is whitespace (a title made of punctuation
    only, or of spaces only); the files are then named by the timestamp
    alone: "_<timestamp>.txt" and so on. *)
Theorem safe_title_empty (unicode_isalnum : char -> bool) (title : str) :
  (safe_title unicode_isalnum title = []
   <-> forall c, In c title -> keeps unicode_isalnum c = true ->
                 isspace c = true)
  /\ (safe_title unicode_isalnum title = [] ->
      forall now now' result source_url,
        saved_names (save_transcript unicode_isalnum now now' title result
                       source_url)
        = [UNDERSCORE :: strftime_compact now ++ lit ".txt";
           UNDERSCORE :: strftime_compact now ++ lit "_timestamps.txt";
           UNDERSCORE :: strftime_compact now ++ lit "_lyrics.txt"]).
Proof.
  split.
  - unfold safe_title.
    set (kept := filter (keeps unicode_isalnum) title).
    assert (F : firstn 50 (rstrip kept) = [] <-> rstrip kept = []).
    { destruct (rstrip kept); simpl; split; congruence. }
    rewrite F, rstrip_nil_iff, forallb_forall. unfold kept.
    split.
    + intros H c Hc K. apply H. now apply filter_In.
    + intros H c Hc. apply filter_In in Hc as [Hc K]. now apply H.
  - intros E now now' result source_url.
    unfold saved_names, save_transcript. cbn [fst snd file_name].
    rewrite E. reflexivity.
Qed.

Lemma safe_title_empty_witness :
  saved_names (save_transcript (fun _ => false) instant_1 instant_2
                 (lit "?! ...") (mk_result []) (lit "u"))
  = [lit "_20240309_070500.txt"; lit "_20240309_070500_timestamps.txt";
     lit "_20240309_070500_lyrics.txt"].
Proof.
  pose proof (safe_title_empty (fun _ => false) (lit "?! ...")) as [_ H].
  rewrite H; [vm_compute; reflexivity|].
  vm_compute. reflexivity.
Defined.

(** ** The paragraphs of the lyrics body in general *)






(** ** The resolver: its candidate, its result and the listing order *)

Lemma rfind_none (c : char) (s : str) :
  ~ In c s -> rfind c s = None.
Proof.
  induction s as [|x s IH]; simpl; [reflexivity|].
  intros H. rewrite IH by tauto. unfold char_eqb.
  destruct (N.eqb_spec x c); [tauto | reflexivity].
Qed.

Lemma rfind_last (c : char) (a b : str) :
  ~ In c b -> rfind c (a ++ c :: b) = Some (length a).
Proof.
  intros H. induction a as [|x a IH]; simpl.
  - rewrite (rfind_none _ _ H). unfold char_eqb. now rewrite N.eqb_refl.
  - now rewrite IH.
Qed.

Lemma stem_nonempty (name : str) : name <> [] -> stem name <> [].
Proof.
  intros H. unfold stem. destruct (suffix_index name) as [i|] eqn:E;
    [|exact H].
  apply suffix_index_bound in E.
  destruct name as [|c name]; [congruence|].
  destruct i; [lia | discriminate].
Qed.

(** Stem and extension of a non-empty base followed by [.m4a]. *)
Lemma m4a_split (base : str) :
  base <> [] ->
  stem (base ++ lit ".m4a") = base /\ suffix (base ++ lit ".m4a") = lit ".m4a".
Proof.
  intros H. unfold stem, suffix, suffix_index.
  change (lit ".m4a") with (DOT :: lit "m4a").
  rewrite rfind_last by (vm_compute; intuition discriminate).
  assert (L : length base <> 0) by (destruct base; simpl; congruence).
  replace (0 <? length base) with true
    by (symmetry; apply Nat.ltb_lt; lia).
  replace (length base <? length (base ++ DOT :: lit "m4a") - 1) with true
    by (symmetry; apply Nat.ltb_lt; rewrite length_app; simpl; lia).
  cbn [andb].
  rewrite firstn_app, firstn_all, Nat.sub_diag, skipn_app, skipn_all,
    Nat.sub_diag.
  simpl. now rewrite List.app_nil_r.
Qed.

(** X8. Whatever the quality, the path tested first has the stem of the
    downloaded file, so the fallback pattern [<stem>.*] is the one the
    candidate itself would give; in the ["aac"] mode its extension is
    [.m4a]; and computing the candidate of a candidate changes nothing. *)
Theorem candidate_keeps_stem (audio_quality downloaded_file : str) :
  downloaded_file <> [] ->
  let cand := candidate audio_quality downloaded_file in
  stem cand = stem downloaded_file
  /\ (audio_quality = lit "aac" -> suffix cand = lit ".m4a")
  /\ (audio_quality <> lit "aac" -> suffix cand = suffix downloaded_file)
  /\ candidate audio_quality cand = cand.
Proof.
  intros H cand. unfold cand, candidate.
  destruct (str_eqb audio_quality (lit "aac")) eqn:Q.
  - apply str_eqb_eq in Q.
    rewrite !with_suffix_stem.
    destruct (m4a_split (stem_nonempty H)) as [S1 S2].
    rewrite S1. repeat split; auto. congruence.
  - repeat split; auto. intros ->. rewrite str_eqb_refl in Q. discriminate.
Qed.

Lemma candidate_keeps_stem_witness :
  stem (candidate (lit "aac") (lit "My.Song.webm")) = stem (lit "My.Song.webm").
Proof.
  apply (@candidate_keeps_stem (lit "aac") (lit "My.Song.webm")).
  discriminate.
Defined.

(** X9. The path [download_audio] returns is the candidate or the name of
    a directory entry the fallback accepts, and it is on disk exactly when
    the candidate is or the fallback accepts some entry. *)
Theorem download_audio_on_disk (glob_selects : str -> str -> bool)
    (d : directory) (audio_quality downloaded_file video_title : str) :
  exists audio_file,
    download_audio glob_selects d audio_quality downloaded_file video_title
    = Returned (audio_file, video_title)
    /\ (audio_file = candidate audio_quality downloaded_file
        \/ exists e, In e d /\ accepted glob_selects downloaded_file e = true
                     /\ entry_name e = audio_file)
    /\ (exists_ d audio_file = true
        <-> exists_ d (candidate audio_quality downloaded_file) = true
            \/ exists e, In e d
                         /\ accepted glob_selects downloaded_file e = true).
Proof.
  unfold download_audio.
  set (cand := candidate audio_quality downloaded_file).
  destruct (exists_ d cand) eqn:C; cbn [negb].
  - exists cand. split; [reflexivity|]. split; [now left|].
    rewrite C. tauto.
  - destruct (fallback_files glob_selects d downloaded_file) as [|f rest]
      eqn:F.
    + exists cand. split; [reflexivity|]. split; [now left|].
      rewrite C. split; [discriminate|].
      intros [H|(e & H)]; [discriminate|].
      apply fallback_files_In in H. rewrite F in H. destruct H.
    + destruct (max_by_first entry_ctime f rest) as (pre & post & E & _).
      set (m := max_by entry_ctime f rest) in *.
      assert (M : In m d /\ accepted glob_selects downloaded_file m = true).
      { apply fallback_files_In. rewrite F, E. apply in_or_app.
        right. now left. }
      exists (entry_name m). split; [reflexivity|].
      split; [right; exists m; tauto|].
      split.
      * intros _. right. exists m. exact M.
      * intros _. apply exists_In. exists m. tauto.
Qed.

Lemma exists_Permutation (d d' : directory) (name : str) :
  Permutation d d' -> exists_ d name = exists_ d' name.
Proof.
  intros P. destruct (exists_ d' name) eqn:E.
  - apply exists_In in E as (e & He & Hn). apply exists_In.
    exists e. split; [|exact Hn].
    eapply Permutation_in; [apply Permutation_sym|]; eassumption.
  - destruct (exists_ d name) eqn:E'; [|reflexivity].
    apply exists_In in E' as (e & He & Hn).
    assert (X : exists_ d' name = true).
    { apply exists_In. exists e. split; [|exact Hn].
      eapply Permutation_in; eassumption. }
    congruence.
Qed.

Lemma filter_Permutation (A : Type) (p : A -> bool) (l l' : list A) :
  Permutation l l' -> Permutation (filter p l) (filter p l').
Proof.
  induction 1 as [|x l l' _ IH|x y l|l l' l'' _ IH1 _ IH2]; simpl.
  - constructor.
  - destruct (p x); [now constructor | exact IH].
  - destruct (p x), (p y); try apply Permutation_refl. apply perm_swap.
  - eapply Permutation_trans; eassumption.
Qed.

Lemma max_by_greatest (A : Type) (key : A -> Q) (best : A) (items : list A) :
  In (max_by key best items) (best :: items)
  /\ forall x, In x (best :: items) ->
               (key x <= key (max_by key best items))%Q.
Proof.
  destruct (max_by_first key best items) as (pre & post & E & P1 & P2).
  rewrite E. split; [apply in_or_app; right; now left|].
  intros x Hx. apply in_app_or in Hx as [Hx|[<-|Hx]].
  - rewrite Forall_forall in P1. apply Qlt_le_weak. now apply P1.
  - apply Qle_refl.
  - rewrite Forall_forall in P2. now apply P2.
Qed.

(** X10. When the entries the fallback accepts have pairwise different
    creation times, the path returned does not depend on the order in
    which the file system enumerates the directory. *)
Theorem download_audio_order_independent
    (glob_selects : str -> str -> bool) (d d' : directory)
    (audio_quality downloaded_file video_title : str) :
  Permutation d d' ->
  (forall x y, In x d -> In y d ->
     accepted glob_selects downloaded_file x = true ->
     accepted glob_selects downloaded_file y = true ->
     (entry_ctime x == entry_ctime y)%Q -> x = y) ->
  download_audio glob_selects d audio_quality downloaded_file video_title
  = download_audio glob_selects d' audio_quality downloaded_file video_title.
Proof.
  intros P D. unfold download_audio.
  rewrite (exists_Permutation _ P).
  destruct (exists_ d' (candidate audio_quality downloaded_file));
    cbn [negb]; [reflexivity|].
  rewrite !fallback_files_filter.
  pose proof (filter_Permutation (accepted glob_selects downloaded_file) P)
    as PF.
  assert (In_d : forall x,
             In x (filter (accepted glob_selects downloaded_file) d) ->
             In x d /\ accepted glob_selects downloaded_file x = true)
    by (intros x; apply filter_In).
  destruct (filter (accepted glob_selects downloaded_file) d)
    as [|f rest] eqn:F;
    destruct (filter (accepted glob_selects downloaded_file) d')
      as [|f' rest'] eqn:F'.
  - reflexivity.
  - apply Permutation_nil in PF. discriminate.
  - apply Permutation_sym, Permutation_nil in PF. discriminate.
  - destruct (max_by_greatest entry_ctime f rest) as [M1 G1].
    destruct (max_by_greatest entry_ctime f' rest') as [M2 G2].
    set (m := max_by entry_ctime f rest) in *.
    set (m' := max_by entry_ctime f' rest') in *.
    assert (I1 : In m (f' :: rest')) by (eapply Permutation_in; eassumption).
    assert (I2 : In m' (f :: rest))
      by (eapply Permutation_in; [apply Permutation_sym|]; eassumption).
    assert (E : m = m').
    { destruct (In_d m M1), (In_d m' I2).
      apply D; auto. apply Qle_antisym; auto. }
    now rewrite E.
Qed.

Lemma download_audio_order_independent_witness :
  download_audio simple_glob distinct_directory (lit "original")
    (lit "song.webm") (lit "Song")
  = download_audio simple_glob reordered_directory (lit "original")
      (lit "song.webm") (lit "Song").
Proof.
  apply download_audio_order_independent.
  - unfold distinct_directory, reordered_directory.
    apply (Permutation_cons_app
             [mk_entry "song.x.mkv" 8; mk_entry "song.txt" 9;
              mk_entry "song.MP3" 7] []).
    cbn [app].
    apply (Permutation_cons_app
             [mk_entry "song.x.mkv" 8; mk_entry "song.txt" 9] []).
    apply Permutation_refl.
  - intros x y Hx Hy _ _ E.
    simpl in Hx, Hy.
    destruct Hx as [<-|[<-|[<-|[<-|[]]]]];
      destruct Hy as [<-|[<-|[<-|[<-|[]]]]];
      try reflexivity; vm_compute in E; discriminate.
Defined.

(** ** The device and the options of the speech engine *)

(** X11. The engine is asked for half precision exactly when the device
    kept by [__init__] is "cuda": with the device "auto" that is exactly
    when torch can be imported and reports CUDA, and any other explicit
    device is kept as given.  A language is passed exactly when a non-empty
    one is given; [None] and the empty string both leave the key out.  No
    other option is passed. *)
Theorem transcribe_options_spec (device : str) (torch_cuda : option bool)
    (language : option str) :
  let self_device := init_device device torch_cuda in
  let options := transcribe_options self_device language in
  (device <> lit "auto" -> self_device = device)
  /\ (device = lit "auto" ->
      self_device = if match torch_cuda with Some b => b | None => false end
                    then lit "cuda" else lit "cpu")
  /\ (exists use_fp16,
        dict_get options (lit "fp16") = Some (PBool use_fp16)
        /\ (use_fp16 = true <->
            device = lit "cuda"
            \/ (device = lit "auto" /\ torch_cuda = Some true)))
  /\ dict_get options (lit "language")
     = match language with
       | Some (c :: l) => Some (PStr (c :: l))
       | _ => None
       end
  /\ (forall k, k <> lit "fp16" -> k <> lit "language" ->
                dict_get options k = None).
Proof.
  intros self_device options.
  assert (A : device <> lit "auto" -> self_device = device).
  { intros H. unfold self_device, init_device.
    destruct (str_eqb device (lit "auto")) eqn:E; [|reflexivity].
    apply str_eqb_eq in E. contradiction. }
  assert (B : device = lit "auto" ->
              self_device
              = if match torch_cuda with Some b => b | None => false end
                then lit "cuda" else lit "cpu").
  { intros ->. unfold self_device, init_device. rewrite str_eqb_refl.
    destruct torch_cuda as [[|]|]; reflexivity. }
  split; [exact A|]. split; [exact B|]. split.
  - exists (str_eqb self_device (lit "cuda")). split.
    + unfold options, transcribe_options.
      destruct language as [[|c l]|]; reflexivity.
    + rewrite str_eqb_eq.
      destruct (str_eqb device (lit "auto")) eqn:E.
      * apply str_eqb_eq in E. rewrite (B E). subst device.
        destruct torch_cuda as [[|]|]; cbn [lit]; split;
          try (intros [H|[_ H]]); try discriminate; auto.
      * assert (N : device <> lit "auto")
          by (intros ->; rewrite str_eqb_refl in E; discriminate).
        rewrite (A N). split; [auto|]. intros [H|[H _]]; [exact H|].
        contradiction.
  - split.
    + unfold options, transcribe_options.
      destruct language as [[|c l]|]; reflexivity.
    + intros k K1 K2. unfold options, transcribe_options.
      assert (F1 : str_eqb (lit "fp16") k = false).
      { destruct (str_eqb (lit "fp16") k) eqn:E; [|reflexivity].
        apply str_eqb_eq in E. congruence. }
      assert (F2 : str_eqb (lit "language") k = false).
      { destruct (str_eqb (lit "language") k) eqn:E; [|reflexivity].
        apply str_eqb_eq in E. congruence. }
      destruct language as [[|c l]|]; cbn [dict_set dict_get];
        change (str_eqb (lit "fp16") (lit "language")) with false;
        cbn [dict_get]; rewrite ?F1, ?F2; reflexivity.
Qed.

Lemma transcribe_options_spec_witness :
  init_device (lit "auto") None = lit "cpu"
  /\ init_device (lit "mps") (Some true) = lit "mps".
Proof.
  split.
  - apply (transcribe_options_spec (lit "auto") None None). reflexivity.
  - apply (transcribe_options_spec (lit "mps") (Some true) None).
    discriminate.
Defined.

(** ** The options of the downloader and the menus *)

Lemma str_eqb_neq (a b : str) : a <> b -> str_eqb a b = false.
Proof.
  intros H. destruct (str_eqb a b) eqn:E; [|reflexivity].
  apply str_eqb_eq in E. contradiction.
Qed.

Lemma dict_get_set_same (d : pydict) (k : str) (v : pyval) :
  dict_get (dict_set d k v) k = Some v.
Proof.
  induction d as [|[k' v'] d IH]; simpl.
  - now rewrite str_eqb_refl.
  - destruct (str_eqb k' k) eqn:E; simpl; rewrite E; auto.
Qed.

Lemma dict_get_set_other (d : pydict) (k k0 : str) (v : pyval) :
  k0 <> k -> dict_get (dict_set d k v) k0 = dict_get d k0.
Proof.
  intros H. induction d as [|[k' v'] d IH]; simpl.
  - rewrite str_eqb_neq by congruence. reflexivity.
  - destruct (str_eqb k' k) eqn:E; simpl.
    + apply str_eqb_eq in E. subst k'.
      rewrite str_eqb_neq by congruence. reflexivity.
    + now rewrite IH.
Qed.

(** X12. The downloader is given the audio-extraction post-processor
    exactly when the quality is "aac", and every other option is the same
    in both modes.  This agrees with the path the resolver then expects:
    without the post-processor it is the downloaded file itself, with it
    it is the same stem with the extension [.m4a].  Of the two menu entries
    only "AAC" asks for the post-processor. *)
Theorem ydl_opts_match_candidate (audio_quality downloaded_file : str) :
  let requested :=
    exists pp,
      dict_get (ydl_opts audio_quality) (lit "postprocessors") = Some pp in
  (requested <-> audio_quality = lit "aac")
  /\ (forall k, k <> lit "postprocessors" ->
        dict_get (ydl_opts audio_quality) k
        = dict_get (ydl_opts (lit "original")) k)
  /\ (~ requested -> candidate audio_quality downloaded_file = downloaded_file)
  /\ (requested -> downloaded_file <> [] ->
      candidate audio_quality downloaded_file
      = stem downloaded_file ++ lit ".m4a"
      /\ suffix (candidate audio_quality downloaded_file) = lit ".m4a"
      /\ stem (candidate audio_quality downloaded_file)
         = stem downloaded_file)
  /\ (forall label quality,
        In (label, quality) quality_options ->
        menu_get quality_options label = Some quality
        /\ ((exists pp, dict_get (ydl_opts quality) (lit "postprocessors")
                        = Some pp)
            <-> label = lit "AAC")).
Proof.
  intros requested.
  assert (R : requested <-> audio_quality = lit "aac").
  { unfold requested, ydl_opts.
    destruct (str_eqb audio_quality (lit "aac")) eqn:E.
    - apply str_eqb_eq in E. rewrite dict_get_set_same.
      split; [auto | eauto].
    - split.
      + intros (pp & H). vm_compute in H. discriminate.
      + intros ->. rewrite str_eqb_refl in E. discriminate. }
  split; [exact R|]. split.
  { intros k Hk. unfold ydl_opts.
    change (str_eqb (lit "original") (lit "aac")) with false. cbv iota.
    destruct (str_eqb audio_quality (lit "aac")); [|reflexivity].
    now apply dict_get_set_other. }
  split.
  { intros N. unfold candidate.
    destruct (str_eqb audio_quality (lit "aac")) eqn:E; [|reflexivity].
    apply str_eqb_eq in E. tauto. }
  split.
  { intros Q H. apply R in Q. subst audio_quality.
    unfold candidate. rewrite str_eqb_refl, with_suffix_stem.
    destruct (m4a_split (stem_nonempty H)) as [S1 S2]. auto. }
  intros label quality [H|[H|[]]]; inversion H; subst;
    (split; [reflexivity|]); split.
  - intros (pp & P). vm_compute in P. discriminate.
  - discriminate.
  - reflexivity.
  - intros _. eexists. vm_compute. reflexivity.
Qed.

Lemma ydl_opts_match_candidate_witness :
  suffix (candidate (lit "aac") (lit "My.Song.webm")) = lit ".m4a"
  /\ candidate (lit "original") (lit "My.Song.webm") = lit "My.Song.webm".
Proof.
  split.
  - apply (ydl_opts_match_candidate (lit "aac") (lit "My.Song.webm")).
    + eexists. vm_compute. reflexivity.
    + discriminate.
  - apply (ydl_opts_match_candidate (lit "original") (lit "My.Song.webm")).
    intros (pp & P). vm_compute in P. discriminate.
Defined.

(** One entry of the language menu, checked by evaluation. *)
Ltac check_menu_entry :=
  split; [reflexivity|];
  split; [split; (let X := fresh "X" in
                  intros X; (reflexivity || discriminate X))|];
  split; [reflexivity|];
  let code := fresh "code" in
  let E := fresh "E" in
  intros code E;
  first [ discriminate E
        | inversion E; subst; split; [reflexivity|];
          match goal with
          | |- exists name, ?l = _ =>
              exists (firstn (length l - 5) l); reflexivity
          end ].

(** X13. Every entry of the language menu is found under its label;
    "Auto-detect" is the only one that passes no language to the engine;
    every other entry passes a two-letter code, and that code is the one
    its label shows in parentheses. *)
Theorem language_menu_spec (label : str) (value : option str) :
  In (label, value) language_options ->
  menu_get language_options label = Some value
  /\ (value = None <-> label = lit "Auto-detect")
  /\ (forall self_device,
        dict_get (transcribe_options self_device value) (lit "language")
        = option_map PStr value)
  /\ (forall code, value = Some code ->
        length code = 2
        /\ exists name, label = name ++ lit " (" ++ code ++ lit ")").
Proof.
  intros H. simpl in H.
  repeat (destruct H as [H|H];
          [inversion H; subst; clear H; check_menu_entry|]).
  destruct H.
Qed.

Lemma language_menu_spec_witness :
  menu_get language_options (lit "Hindi (hi)") = Some (Some (lit "hi")).
Proof.
  apply (@language_menu_spec (lit "Hindi (hi)") (Some (lit "hi"))).
  simpl. do 12 right. left. reflexivity.
Defined.

(** ** An uploaded file and the cleanup after a job *)

Lemma rfind_none_inv (c : char) (s : str) : rfind c s = None -> ~ In c s.
Proof.
  induction s as [|x s IH]; simpl; [tauto|].
  destruct (rfind c s); [discriminate|].
  unfold char_eqb. destruct (N.eqb_spec x c); [discriminate|].
  intros _ [H|H]; [contradiction | now apply IH].
Qed.

Lemma rfind_split (c : char) (s : str) (i : nat) :
  rfind c s = Some i ->
  exists a b, s = a ++ c :: b /\ length a = i /\ ~ In c b.
Proof.
  revert i; induction s as [|x s IH]; simpl; intros i; [discriminate|].
  destruct (rfind c s) as [j|] eqn:R.
  - intros E; inversion E; subst.
    destruct (IH j eq_refl) as (a & b & -> & L & N).
    exists (x :: a), b. simpl. auto.
  - unfold char_eqb. destruct (N.eqb_spec x c) as [->|]; [|discriminate].
    intros E; inversion E; subst.
    exists [], s. simpl. split; [reflexivity|]. split; [reflexivity|].
    now apply rfind_none_inv.
Qed.

(** The two parts [pathlib] cuts a name into put it together again. *)
Lemma stem_suffix (name : str) : stem name ++ suffix name = name.
Proof.
  unfold stem, suffix. destruct (suffix_index name).
  - apply firstn_skipn.
  - apply List.app_nil_r.
Qed.

(** An extension survives a change of stem, when the new stem is not empty
    and has no dot. *)
Lemma suffix_restem (name base : str) :
  base <> [] -> ~ In DOT base ->
  suffix (base ++ suffix name) = suffix name.
Proof.
  intros Hb Hd. unfold suffix at 2 3.
  destruct (suffix_index name) as [i|] eqn:E.
  - pose proof (suffix_index_bound _ E) as B.
    unfold suffix_index in E.
    destruct (rfind DOT name) as [j|] eqn:R; [|discriminate].
    destruct ((0 <? j) && (j <? length name - 1)); [|discriminate].
    inversion E; subst j.
    destruct (rfind_split _ _ R) as (a & b & -> & L & N).
    rewrite skipn_app, L, Nat.sub_diag, skipn_all2 by lia. cbn [skipn app].
    unfold suffix, suffix_index. rewrite (@rfind_last DOT base b N).
    assert (Lb : length base <> 0) by (destruct base; simpl; congruence).
    rewrite length_app in B. simpl in B.
    replace (0 <? length base) with true
      by (symmetry; apply Nat.ltb_lt; lia).
    replace (length base <? length (base ++ DOT :: b) - 1) with true
      by (symmetry; apply Nat.ltb_lt; rewrite length_app; simpl; lia).
    cbn [andb]. rewrite skipn_app, skipn_all, Nat.sub_diag. reflexivity.
  - rewrite List.app_nil_r. unfold suffix, suffix_index.
    now rewrite (rfind_none _ _ Hd).
Qed.

Lemma startswith_local_file (name : str) :
  startswith (lit "Local file: " ++ name) (lit "http") = false.
Proof. reflexivity. Qed.

(** X14. For an uploaded file the temporary copy keeps the extension of the
    uploaded name, and the title followed by that extension is the
    uploaded name again; a non-empty name gives a non-empty title; and the
    source shown in the transcripts, "Local file: <name>", never starts
    with "http". *)
Theorem upload_file_spec (uploaded_name tmp_random : str) :
  ~ In DOT tmp_random ->
  let audio_file := fst (fst (upload_file uploaded_name tmp_random)) in
  let video_title := snd (fst (upload_file uploaded_name tmp_random)) in
  let source_url := snd (upload_file uploaded_name tmp_random) in
  suffix audio_file = suffix uploaded_name
  /\ video_title ++ suffix audio_file = uploaded_name
  /\ (uploaded_name <> [] -> video_title <> [])
  /\ source_url = lit "Local file: " ++ uploaded_name
  /\ startswith source_url (lit "http") = false.
Proof.
  intros Hd audio_file video_title source_url.
  assert (S : suffix audio_file = suffix uploaded_name).
  { unfold audio_file, upload_file. cbn [fst snd]. rewrite app_assoc.
    apply suffix_restem; [discriminate|].
    intros H. apply in_app_or in H as [H|H]; [|contradiction].
    vm_compute in H. intuition discriminate. }
  split; [exact S|]. split.
  { rewrite S. apply stem_suffix. }
  split; [apply stem_nonempty|]. split; reflexivity.
Qed.

Lemma upload_file_spec_witness :
  suffix (fst (fst (upload_file (lit "My Talk.v2.MP4") (lit "k3_x9a7q"))))
  = suffix (lit "My Talk.v2.MP4").
Proof.
  apply (@upload_file_spec (lit "My Talk.v2.MP4") (lit "k3_x9a7q")).
  vm_compute. intuition discriminate.
Defined.

Lemma unlink_In (d : directory) (path : str) (e : entry) :
  In e (unlink d path) <-> In e d /\ entry_name e <> path.
Proof.
  unfold unlink. rewrite filter_In, negb_true_iff.
  split; intros [H1 H2]; split; auto.
  - intros E. apply str_eqb_eq in E. congruence.
  - now apply str_eqb_neq.
Qed.

Lemma exists_unlink (d : directory) (path : str) :
  exists_ (unlink d path) path = false.
Proof.
  destruct (exists_ (unlink d path) path) eqn:E; [|reflexivity].
  apply exists_In in E as (e & He & Hn).
  apply unlink_In in He. tauto.
Qed.

Lemma startswith_truthy (s : str) :
  truthy s && startswith s (lit "http") = startswith s (lit "http").
Proof. destruct s; reflexivity. Qed.

(** X15. After a successful job the audio file is removed exactly when the
    input was an upload, or the audio is not to be kept and the source
    starts with "http"; no other file is touched.  Hence the temporary copy
    of an upload is removed whatever the "keep" box says, and a download
    whose URL was entered without "http" in front stays on disk even when
    the box is not ticked. *)
Theorem cleanup_spec (keep_audio : bool)
    (input_method source_url audio_file : str) (d : directory) :
  let d' := cleanup keep_audio input_method source_url audio_file d in
  let removed :=
    str_eqb input_method (lit "Upload File")
    || (negb keep_audio && startswith source_url (lit "http")) in
  (forall e, entry_name e <> audio_file -> (In e d' <-> In e d))
  /\ exists_ d' audio_file = exists_ d audio_file && negb removed
  /\ (removed = false -> d' = d)
  /\ (input_method = lit "Upload File" -> exists_ d' audio_file = false)
  /\ (input_method <> lit "Upload File" ->
      startswith source_url (lit "http") = false -> d' = d).
Proof.
  intros d' removed.
  assert (U : forall e, entry_name e <> audio_file ->
              (In e (unlink d audio_file) <-> In e d))
    by (intros e He; rewrite unlink_In; tauto).
  assert (Main :
    (forall e, entry_name e <> audio_file -> (In e d' <-> In e d))
    /\ exists_ d' audio_file = exists_ d audio_file && negb removed
    /\ (removed = false -> d' = d)).
  { unfold d', removed, cleanup.
    rewrite <- andb_assoc, startswith_truthy.
    destruct (str_eqb input_method (lit "Upload File"));
      destruct (negb keep_audio && startswith source_url (lit "http"));
      destruct (exists_ d audio_file) eqn:X; cbn [andb orb negb];
      rewrite ?exists_unlink, ?X; cbn [andb];
      rewrite ?exists_unlink;
      repeat split; auto; try tauto; try discriminate;
      apply U; assumption. }
  destruct Main as (M1 & M2 & M3).
  split; [exact M1|]. split; [exact M2|]. split; [exact M3|]. split.
  - intros ->. rewrite M2. unfold removed. rewrite str_eqb_refl.
    cbn [orb negb]. apply andb_false_r.
  - intros Hm Hs. apply M3. unfold removed.
    rewrite (str_eqb_neq Hm), Hs, andb_false_r. reflexivity.
Qed.

Lemma cleanup_spec_witness :
  exists_ (cleanup true (lit "Upload File") (lit "Local file: a.mp3")
             (lit "tmpk3.mp3")
             [mk_entry "tmpk3.mp3" 1; mk_entry "song.webm" 2])
    (lit "tmpk3.mp3") = false
  /\ cleanup false (lit "URL (YouTube, Vimeo, etc.)")
       (lit "www.youtube.com/watch?v=x") (lit "song.webm")
       [mk_entry "tmpk3.mp3" 1; mk_entry "song.webm" 2]
     = [mk_entry "tmpk3.mp3" 1; mk_entry "song.webm" 2].
Proof.
  split.
  - apply (cleanup_spec true (lit "Upload File") (lit "Local file: a.mp3")
             (lit "tmpk3.mp3")
             [mk_entry "tmpk3.mp3" 1; mk_entry "song.webm" 2]).
    reflexivity.
  - apply (cleanup_spec false (lit "URL (YouTube, Vimeo, etc.)")
             (lit "www.youtube.com/watch?v=x") (lit "song.webm")
             [mk_entry "tmpk3.mp3" 1; mk_entry "song.webm" 2]).
    + discriminate.
    + reflexivity.
Defined.

(** ** The session state *)

Lemma script_run_uniform (st st' : session_state) :
  session_uniform st -> script_run st st' ->
  ss_transcription_result st' <> Missing /\ session_uniform st'.
Proof.
  intros U R. destruct R as [st|st H|st result files video_title].
  - destruct U as [(A & B & C)|[(A & B & C)|(r & f & t & ->)]].
    + unfold init_session. rewrite A, B, C. simpl.
      split; [discriminate | right; left; auto].
    + unfold init_session. rewrite A, B, C. simpl.
      split; [discriminate | right; left; auto].
    + split; [discriminate|]. right; right. now exists r, f, t.
  - split; [discriminate|]. right; left. auto.
  - split; [discriminate|]. right; right.
    now exists result, files, video_title.
Qed.

Lemma session_reachable_uniform (st : session_state) :
  session_reachable st -> session_uniform st.
Proof.
  induction 1 as [|st st' _ IH R].
  - left. auto.
  - now apply (script_run_uniform IH R).
Qed.

(** X16. In every state a browser session can reach, after a run of the
    script none of the three keys is missing, and whenever the stored
    result is not [None] (the test that guards the results view and the
    "New Transcription" button) the file names and the title are stored
    too, so that unpacking the three file names cannot fail; after the
    button all three are [None] again. *)
Theorem session_state_invariant (st st' : session_state) :
  session_reachable st -> script_run st st' ->
  ss_transcription_result st' <> Missing
  /\ ss_transcript_files st' <> Missing
  /\ ss_video_title st' <> Missing
  /\ (ss_transcription_result st' <> PyNone ->
      exists result txt_file srt_file lyrics_file video_title,
        st' = {| ss_transcription_result := Value result;
                 ss_transcript_files :=
                   Value (txt_file, srt_file, lyrics_file);
                 ss_video_title := Value video_title |})
  /\ (ss_transcription_result st' = PyNone ->
      ss_transcript_files st' = PyNone /\ ss_video_title st' = PyNone).
Proof.
  intros Hr R.
  destruct (script_run_uniform (session_reachable_uniform Hr) R) as [M U].
  destruct U as [(A & B & C)|[(A & B & C)|(r & [[f1 f2] f3] & t & ->)]].
  - contradiction.
  - rewrite A, B, C. repeat split; try discriminate. congruence.
  - simpl. repeat split; try discriminate.
    intros _. now exists r, f1, f2, f3, t.
Qed.

Lemma session_state_invariant_witness :
  ss_transcript_files
    (store_result (mk_result []) (lit "a.txt", lit "b.txt", lit "c.txt")
       (lit "T")
       (init_session {| ss_transcription_result := Missing;
                        ss_transcript_files := Missing;
                        ss_video_title := Missing |}))
  <> Missing.
Proof.
  apply (@session_state_invariant
           {| ss_transcription_result := Missing;
              ss_transcript_files := Missing;
              ss_video_title := Missing |}).
  - apply reach_fresh.
  - apply run_job.
Defined.

(** ** The fallback finds the media file of the download *)

Lemma wildcard_star_unfold (pattern' name : str) :
  wildcard_match (42%N :: pattern') name
  = wildcard_match pattern' name
    || match name with
       | [] => false
       | _ :: name' => wildcard_match (42%N :: pattern') name'
       end.
Proof. destruct name; reflexivity. Qed.

(** The pattern [<stem>.*] selects every name that starts with the stem
    and a dot, whatever characters the stem is made of. *)
Lemma wildcard_match_own_stem (s rest : str) :
  wildcard_match (s ++ lit ".*") (s ++ DOT :: rest) = true.
Proof.
  induction s as [|x s IH].
  - change (wildcard_match ([] ++ lit ".*") ([] ++ DOT :: rest))
      with ((N.eqb DOT 63 || char_eqb DOT DOT)
            && wildcard_match [42%N] rest).
    now rewrite wildcard_star_any.
  - change ((x :: s) ++ lit ".*") with (x :: (s ++ lit ".*")).
    change ((x :: s) ++ DOT :: rest) with (x :: (s ++ DOT :: rest)).
    destruct (N.eqb_spec x 42) as [->|Hx].
    + rewrite wildcard_star_unfold, wildcard_star_unfold.
      rewrite IH. now rewrite !orb_true_r.
    + cbn [wildcard_match]. apply N.eqb_neq in Hx. rewrite Hx.
      unfold char_eqb. now rewrite N.eqb_refl, orb_true_r, IH.
Qed.

Lemma simple_glob_own_stem (s rest : str) :
  simple_glob (s ++ lit ".*") (s ++ DOT :: rest) = true.
Proof.
  unfold simple_glob. rewrite wildcard_match_own_stem, andb_true_r.
  destruct s as [|x s]; [reflexivity|].
  cbn [app ishidden]. now destruct (char_eqb x DOT).
Qed.

Lemma lower_char_dot (c : char) : lower_char c = DOT -> c = DOT.
Proof.
  unfold lower_char, in_range.
  destruct (N.leb_spec 65 c); destruct (N.leb_spec c 90); cbn [andb];
    try (destruct (N.eqb_spec c 8490); [discriminate | auto]).
  unfold DOT. lia.
Qed.

(** The extensions of the allow-list, in any letter case: a dot followed
    by at least one character, none of them a dot. *)
Lemma allowed_extension_shape (ext : str) :
  str_in (lower ext) audio_exts = true ->
  exists b, ext = DOT :: b /\ b <> [] /\ ~ In DOT b.
Proof.
  intros H. unfold str_in in H. apply existsb_exists in H as (L & HL & E).
  apply str_eqb_eq in E.
  assert (S : exists L', L = DOT :: L' /\ L' <> [] /\ ~ In DOT L').
  { simpl in HL.
    repeat (destruct HL as [<-|HL];
            [eexists; split; [reflexivity|];
             split; [discriminate | vm_compute; intuition discriminate]|]).
    destruct HL. }
  destruct S as (L' & -> & N1 & N2).
  destruct ext as [|c b]; [discriminate|].
  simpl in E. inversion E as [[E1 E2]].
  apply lower_char_dot in E1. subst c.
  exists b. split; [reflexivity|]. split.
  - intros ->. simpl in E2. congruence.
  - intros I. apply N2. rewrite <- E2.
    change DOT with (lower_char DOT). now apply in_map.
Qed.

Lemma suffix_of_dotted (base b : str) :
  base <> [] -> b <> [] -> ~ In DOT b ->
  suffix (base ++ DOT :: b) = DOT :: b.
Proof.
  intros Hb Hn Hd. unfold suffix, suffix_index.
  rewrite (@rfind_last DOT base b Hd).
  assert (L1 : length base <> 0) by (destruct base; simpl; congruence).
  assert (L2 : length b <> 0) by (destruct b; simpl; congruence).
  replace (0 <? length base) with true
    by (symmetry; apply Nat.ltb_lt; lia).
  replace (length base <? length (base ++ DOT :: b) - 1) with true
    by (symmetry; apply Nat.ltb_lt; rewrite length_app; simpl; lia).
  cbn [andb]. rewrite skipn_app, skipn_all, Nat.sub_diag. reflexivity.
Qed.

(** X17. Whenever the download directory holds an entry named by the stem
    of the downloaded file followed by an extension of the allow-list, in
    any letter case, [download_audio] returns a path that is on disk, in
    both quality modes.  (The stem is taken without [[], where the
    pattern matcher is the library's.) *)
Theorem download_audio_finds_media (d : directory)
    (audio_quality downloaded_file video_title ext : str) (e : entry) :
  downloaded_file <> [] ->
  ~ In 91%N (stem downloaded_file) ->
  In e d ->
  entry_name e = stem downloaded_file ++ ext ->
  str_in (lower ext) audio_exts = true ->
  exists audio_file,
    download_audio simple_glob d audio_quality downloaded_file video_title
    = Returned (audio_file, video_title)
    /\ exists_ d audio_file = true.
Proof.
  intros Hf _ He Hn Hx.
  destruct (allowed_extension_shape _ Hx) as (b & -> & B1 & B2).
  assert (A : accepted simple_glob downloaded_file e = true).
  { unfold accepted. rewrite Hn, simple_glob_own_stem.
    rewrite (suffix_of_dotted (stem_nonempty Hf) B1 B2). exact Hx. }
  unfold download_audio.
  destruct (exists_ d (candidate audio_quality downloaded_file)) eqn:C;
    cbn [negb]; [eauto|].
  destruct (fallback_files simple_glob d downloaded_file) as [|f rest] eqn:F.
  - assert (I : In e (fallback_files simple_glob d downloaded_file))
      by (apply fallback_files_In; auto).
    rewrite F in I. destruct I.
  - destruct (max_by_first entry_ctime f rest) as (pre & post & E & _).
    exists (entry_name (max_by entry_ctime f rest)).
    split; [reflexivity|]. apply exists_In.
    exists (max_by entry_ctime f rest). split; [|reflexivity].
    apply (fallback_files_In simple_glob d downloaded_file).
    rewrite F, E. apply in_or_app. right. now left.
Qed.

Lemma download_audio_finds_media_witness :
  exists audio_file,
    download_audio simple_glob fallback_directory (lit "aac")
      (lit "song.webm") (lit "Song")
    = Returned (audio_file, lit "Song")
    /\ exists_ fallback_directory audio_file = true.
Proof.
  apply (@download_audio_finds_media fallback_directory (lit "aac")
           (lit "song.webm") (lit "Song") (lit ".MP3")
           (mk_entry "song.MP3" 7)).
  - discriminate.
  - vm_compute. intuition discriminate.
  - right. left. reflexivity.
  - reflexivity.
  - reflexivity.
Defined.

(** ** A transcript without text *)

Lemma lstrip_all_space (s : str) :
  forallb isspace s = true -> lstrip s = [].
Proof.
  induction s as [|c s IH]; simpl; [reflexivity|].
  rewrite andb_true_iff. intros [-> H]. auto.
Qed.

Lemma strip_nil_iff (s : str) : strip s = [] <-> forallb isspace s = true.
Proof.
  unfold strip. rewrite rstrip_nil_iff. split.
  - intros H. destruct (lstrip_split s) as (ws & E & F).
    rewrite E, forallb_app, H, andb_true_r.
    apply forallb_forall. now apply Forall_forall.
  - intros H. now rewrite lstrip_all_space.
Qed.

Lemma full_text_body_header (video_title source_url : str) (now : datetime)
    (result : TranscriptionResult) :
  full_text_body video_title source_url now result
  = (lit "Transcription of: " ++ video_title ++ [LF]
     ++ lit "Source: " ++ source_url ++ [LF]
     ++ lit "Date: " ++ strftime_date now ++ [LF]
     ++ lit "Language: " ++ language result ++ [LF]
     ++ repeat EQUALS 80 ++ [LF; LF])
    ++ strip (text result).
Proof.
  unfold full_text_body, write, separator. simpl.
  rewrite <- !app_assoc. simpl.
  repeat (f_equal; try rewrite <- !app_assoc; simpl).
Qed.

(** X18. The full-text file consists of its header alone exactly when the
    text of the result is empty or made of whitespace only; and a segment
    whose text is such contributes an empty line to the timestamped body:
    its block is the marker line followed by two line feeds. *)
Theorem blank_text_bodies (video_title source_url : str) (now : datetime)
    (result : TranscriptionResult) (segment : Segment) :
  (full_text_body video_title source_url now result
   = lit "Transcription of: " ++ video_title ++ [LF]
     ++ lit "Source: " ++ source_url ++ [LF]
     ++ lit "Date: " ++ strftime_date now ++ [LF]
     ++ lit "Language: " ++ language result ++ [LF]
     ++ repeat EQUALS 80 ++ [LF; LF]
   <-> forallb isspace (text result) = true)
  /\ (forallb isspace (seg_text segment) = true ->
      forall f,
        timestamped_step f segment
        = f ++ lit "[" ++ _format_timestamp (seg_start segment)
            ++ lit " --> " ++ _format_timestamp (seg_end segment)
            ++ lit "]" ++ [LF; LF; LF]).
Proof.
  split.
  - rewrite <- strip_nil_iff, full_text_body_header.
    set (header := lit "Transcription of: " ++ _).
    split.
    + intros E. destruct (strip (text result)) as [|c r]; [reflexivity|].
      apply (f_equal (@length _)) in E. rewrite length_app in E.
      simpl in E. lia.
    + intros ->. apply List.app_nil_r.
  - intros H f. apply strip_nil_iff in H.
    unfold timestamped_step, write. rewrite H. reflexivity.
Qed.

Lemma blank_text_bodies_witness :
  timestamped_step [] (mk_segment 0 1 (lit "  "))
  = lit "[00:00:00 --> 00:00:01]" ++ [LF; LF; LF].
Proof.
  pose proof (blank_text_bodies [] [] instant_1 (mk_result [])
                (mk_segment 0 1 (lit "  "))) as [_ H].
  rewrite H; reflexivity.
Defined.
